(** * pycomotive: locomotives, rolling stock, consists and cargo loading

    A shallow embedding of [pycomotive.py] and the properties of its
    cargo accounting and consist splitting.

    Conventions of the embedding.

    - Numbers.  The Python fields hold numbers, ints or floats; [/] is
      Python 3 true division.  Two embeddings of them are used.
      [Module Py] has Python's own numbers: ints of any size and binary64
      floats, every float operation rounded as IEEE 754 rounds it, and
      [ZeroDivisionError] and [OverflowError] raised where Python raises
      them.  What depends on rounding or on the range of the floats is
      stated there.  The consists, their totals and [load_consist] are
      over exact rationals [Q], where [x / y] is the exact quotient and
      raises [ZeroDivisionError] when [y] is zero; what is stated over [Q]
      are evaluations on numbers that a float holds exactly, with results
      that it holds exactly, and properties of the lists, of the store and
      of the flow of control that no arithmetic enters.  Equality of
      rationals is [Qeq] (written [==]); [=] on a number is used only
      where the code stores or returns the very expression shown.
    - Exceptions.  A method that can raise returns a [result]; the
      exceptions are the Python ones.
    - Objects.  Units (locomotives and cars) are objects with identity:
      a consist's stock holds references [loc] into a store
      [gmap loc Obj], so that one object attached twice is one object,
      and [deque.index] compares references (the classes define no
      [__eq__]). *)

From Stdlib Require Import QArith Lqa ZArith Lia List String Ascii SpecFloat.
From stdpp Require Import base option list gmap strings.

Import ListNotations.

(** ** Exceptions and results *)

Inductive exn : Set :=
| ZeroDivisionError   (* x / 0 *)
| ValueError          (* deque.index(x): x is not in deque *)
| IndexError          (* pop from an empty deque *)
| AttributeError      (* attribute missing on the receiver *)
| OverflowError       (* an int too large for a float *)
| DanglingReference.  (* model only: a reference absent from the store;
                         no Python execution produces it *)

Inductive result (A : Type) : Type :=
| Ok (a : A)
| Raise (e : exn).
Arguments Ok {A} a.
Arguments Raise {A} e.

#[global] Instance result_ret : MRet result := fun A a => Ok a.
#[global] Instance result_bind : MBind result := fun A B k m =>
  match m with
  | Ok a => k a
  | Raise e => Raise e
  end.

(** Python's comparisons on numbers. *)
Definition Qgt_bool (x y : Q) : bool := negb (Qle_bool x y).

(** Python's true division. *)
Definition truediv (x y : Q) : result Q :=
  if Qeq_bool y 0 then Raise ZeroDivisionError else Ok (x / y)%Q.

(** ** class Locomotive *)

Module Locomotive.

Record t : Type := init {
  name : string;
  number : Z;
  lclass : string;
  road : string;
  length : Q;
  weight : Q;
  power : Q;
  maxspeed : Q
}.

End Locomotive.

(** ** class RollingStock, in exact arithmetic *)

Module RollingStock.

Record t : Type := Build {
  car_type : string;
  road : string;
  number : Z;
  color : string;
  length : Q;
  dry_mass : Q;
  weight : Q;
  capacity : Q;
  maxspeed : Q
}.

(** [__init__]: the weight starts at [dry_mass + load_mass]
    ([load_mass] defaults to 0 and [maxspeed] to 1000 in Python). *)
Definition init (car_type road : string) (number : Z) (color : string)
    (length dry_mass capacity load_mass maxspeed : Q) : t :=
  {| car_type := car_type; road := road; number := number; color := color;
     length := length; dry_mass := dry_mass;
     weight := (dry_mass + load_mass)%Q;
     capacity := capacity; maxspeed := maxspeed |}.

(** [self.weight = w] *)
Definition set_weight (self : t) (w : Q) : t :=
  {| car_type := car_type self; road := road self; number := number self;
     color := color self; length := length self; dry_mass := dry_mass self;
     weight := w;
     capacity := capacity self; maxspeed := maxspeed self |}.

(** [isfull]: [(self.weight - self.dry_mass)/self.capacity] *)
Definition isfull (self : t) : result Q :=
  truediv (weight self - dry_mass self) (capacity self).

(** [load(mass)]: returns the car after the call and the returned value.
    When it raises, nothing has been assigned. *)
Definition load (self : t) (mass : Q) : result (t * Q) :=
  f ← isfull self;
  if Qle_bool mass ((1 - f) * capacity self) then
    Ok (set_weight self (weight self + mass), 0%Q)
  else
    f' ← isfull self;
    let e := ((1 - f') * capacity self)%Q in
    Ok (set_weight self (dry_mass self + capacity self), (mass - e)%Q).

(** [unload(p)] ([p] defaults to 1): the car after the call and the
    mass returned. *)
Definition unload (self : t) (p : Q) : result (t * Q) :=
  f ← isfull self;
  p' ← (if Qgt_bool p f then isfull self else Ok p);
  let mass := (p' * (weight self - dry_mass self))%Q in
  Ok (set_weight self (weight self - mass), mass).

(** The data-model invariant of the specification. *)
Definition within_capacity (self : t) : Prop :=
  (dry_mass self <= weight self /\
   weight self <= dry_mass self + capacity self)%Q.

(** Free capacity: [capacity - (weight - dry_mass)]. *)
Definition free_capacity (self : t) : Q :=
  (capacity self - (weight self - dry_mass self))%Q.

End RollingStock.

(** ** Objects and the store *)

Definition loc : Set := positive.

Inductive Obj : Type :=
| Loco (l : Locomotive.t)
| Car (r : RollingStock.t).

(** [isinstance(car, Locomotive)] *)
Definition isinstance_Locomotive (o : Obj) : bool :=
  match o with
  | Loco _ => true
  | Car _ => false
  end.

(** [car.length] and [car.weight]: both classes have the attribute. *)
Definition obj_length (o : Obj) : Q :=
  match o with
  | Loco l => Locomotive.length l
  | Car r => RollingStock.length r
  end.

Definition obj_weight (o : Obj) : Q :=
  match o with
  | Loco l => Locomotive.weight l
  | Car r => RollingStock.weight r
  end.

(** [car.car_type]: a Locomotive has no such attribute. *)
Definition obj_car_type (o : Obj) : result string :=
  match o with
  | Loco _ => Raise AttributeError
  | Car r => Ok (RollingStock.car_type r)
  end.

(** Following a reference. *)
Definition deref (h : gmap loc Obj) (car : loc) : result Obj :=
  match h !! car with
  | Some o => Ok o
  | None => Raise DanglingReference
  end.

(** [car.load(cargo)] on the object behind a reference: the attribute
    lookup fails on a Locomotive; on a RollingStock the method runs and the
    object is updated in place.  Returns the store after the call and the
    value returned. *)
Definition call_load (h : gmap loc Obj) (car : loc) (cargo : Q)
    : result (gmap loc Obj * Q) :=
  o ← deref h car;
  match o with
  | Loco _ => Raise AttributeError
  | Car r =>
      '(r', overflow) ← RollingStock.load r cargo;
      Ok (<[car := Car r']> h, overflow)
  end.

(** ** collections.deque, the operations the code uses *)

Module deque.

(** [d.index(x)]: position of the first element equal to [x];
    [None] stands for [ValueError]. *)
Fixpoint index (x : loc) (d : list loc) : option nat :=
  match d with
  | [] => None
  | y :: d' => if Pos.eqb y x then Some O else S <$> index x d'
  end.

(** [d.popleft()]; [None] stands for [IndexError]. *)
Definition popleft (d : list loc) : option (loc * list loc) :=
  match d with
  | [] => None
  | x :: d' => Some (x, d')
  end.

(** [d.append(x)] *)
Definition append (d : list loc) (x : loc) : list loc := d ++ [x].

(** One step of rotation to the left, [d.append(d.popleft())]; an empty
    deque is left as it is. *)
Definition rotate_left1 (d : list loc) : list loc :=
  match popleft d with
  | None => d
  | Some (x, d') => append d' x
  end.

(** [d.rotate(-n)] for [n >= 0]: [n] steps to the left. *)
Definition rotate_neg (n : nat) (d : list loc) : list loc :=
  Nat.iter n rotate_left1 d.

End deque.

(** ** class Consist *)

Module Consist.

Record t : Type := Build {
  number : Z;
  stock : list loc
}.

(** [Consist(number, units)]: with one extra argument the stock is
    [deque(units)], a copy of the sequence given. *)
Definition init (number : Z) (units : list loc) : t :=
  {| number := number; stock := units |}.

(** The loop of the [length] property, [length += car.length]. *)
Fixpoint length_loop (h : gmap loc Obj) (length : Q) (cars : list loc)
    : result Q :=
  match cars with
  | [] => Ok length
  | car :: cars' =>
      o ← deref h car;
      length_loop h (length + obj_length o)%Q cars'
  end.

Definition length (h : gmap loc Obj) (self : t) : result Q :=
  length_loop h 0%Q (stock self).

(** The loop of the [weight] property, [weight += car.weight]. *)
Fixpoint weight_loop (h : gmap loc Obj) (weight : Q) (cars : list loc)
    : result Q :=
  match cars with
  | [] => Ok weight
  | car :: cars' =>
      o ← deref h car;
      weight_loop h (weight + obj_weight o)%Q cars'
  end.

Definition weight (h : gmap loc Obj) (self : t) : result Q :=
  weight_loop h 0%Q (stock self).

(** [attach(car)]: [self.stock.append(car)] *)
Definition attach (self : t) (car : loc) : t :=
  {| number := number self; stock := deque.append (stock self) car |}.

(** The loop of [separate], [new_stock.append(self.stock.popleft())],
    [n] times.  Returns the exception raised, if any, with both deques
    as they are then. *)
Fixpoint separate_loop (n : nat) (self_stock new_stock : list loc)
    : option exn * list loc * list loc :=
  match n with
  | O => (None, self_stock, new_stock)
  | S n' =>
      match deque.popleft self_stock with
      | None => (Some IndexError, self_stock, new_stock)
      | Some (x, rest) => separate_loop n' rest (deque.append new_stock x)
      end
  end.

(** [separate(car)]: the value returned (the new consist) or the
    exception raised, paired with [self] after the call. *)
Definition separate (self : t) (car : loc) : result t * t :=
  match deque.index car (stock self) with
  | None => (Raise ValueError, self)
  | Some idx =>
      let rotated := deque.rotate_neg idx (stock self) in
      match separate_loop (List.length rotated - idx) rotated [] with
      | (Some e, self_stock, _) =>
          (Raise e, {| number := number self; stock := self_stock |})
      | (None, self_stock, new_stock) =>
          (Ok (init (number self + 1) new_stock),
           {| number := number self; stock := self_stock |})
      end
  end.

End Consist.

(** ** str.title, on ASCII text *)

Definition is_upper (c : ascii) : bool :=
  let n := nat_of_ascii c in (65 <=? n)%nat && (n <=? 90)%nat.

Definition is_lower (c : ascii) : bool :=
  let n := nat_of_ascii c in (97 <=? n)%nat && (n <=? 122)%nat.

Definition to_upper (c : ascii) : ascii :=
  if is_lower c then ascii_of_nat (nat_of_ascii c - 32) else c.

Definition to_lower (c : ascii) : ascii :=
  if is_upper c then ascii_of_nat (nat_of_ascii c + 32) else c.

(** A letter that follows a letter is lowered, any other letter is
    raised. *)
Fixpoint title_from (previous_is_cased : bool) (s : string) : string :=
  match s with
  | EmptyString => EmptyString
  | String c s' =>
      String (if previous_is_cased then to_lower c else to_upper c)
             (title_from (is_upper c || is_lower c) s')
  end.

Definition title (s : string) : string := title_from false s.

(** Text made of ASCII characters only.  On such text [title] is Python's
    [str.title]; other text, which Python treats by the case rules of
    Unicode, is outside what [title] describes. *)
Fixpoint is_ascii (s : string) : bool :=
  match s with
  | EmptyString => true
  | String c s' => (nat_of_ascii c <? 128)%nat && is_ascii s'
  end.

(** ** load_consist *)

(** The outcome of a run of [load_consist]: the remaining cargo or the
    exception raised, the store as the run leaves it, and (ghost) the
    receivers of the [car.load(cargo)] expressions evaluated, in order. *)
Record run : Type := Run {
  outcome : result Q;
  store : gmap loc Obj;
  load_receivers : list loc
}.

(** The loop taken when [typ is None]. *)
Fixpoint load_every (h : gmap loc Obj) (log : list loc) (cargo : Q)
    (cars : list loc) : run :=
  match cars with
  | [] => Run (Ok cargo) h log
  | car :: cars' =>
      if Qeq_bool cargo 0 then Run (Ok cargo) h log
      else
        match call_load h car cargo with
        | Raise e => Run (Raise e) h (log ++ [car])
        | Ok (h', cargo') => load_every h' (log ++ [car]) cargo' cars'
        end
  end.

(** The loop taken when a car type is given. *)
Fixpoint load_matching (typ : string) (h : gmap loc Obj) (log : list loc)
    (cargo : Q) (cars : list loc) : run :=
  match cars with
  | [] => Run (Ok cargo) h log
  | car :: cars' =>
      match deref h car with
      | Raise e => Run (Raise e) h log
      | Ok o =>
          if isinstance_Locomotive o then load_matching typ h log cargo cars'
          else if Qeq_bool cargo 0 then Run (Ok cargo) h log
          else
            match obj_car_type o with
            | Raise e => Run (Raise e) h log
            | Ok ct =>
                if String.eqb ct (title typ) then
                  match call_load h car cargo with
                  | Raise e => Run (Raise e) h (log ++ [car])
                  | Ok (h', cargo') =>
                      load_matching typ h' (log ++ [car]) cargo' cars'
                  end
                else load_matching typ h log cargo cars'
            end
      end
  end.

(** [load_consist(cargo, con, typ)]; the consist returned is [con]
    itself, its cars updated in the store. *)
Definition load_consist (h : gmap loc Obj) (cargo : Q) (con : Consist.t)
    (typ : option string) : run :=
  match typ with
  | None => load_every h [] cargo (Consist.stock con)
  | Some typ => load_matching typ h [] cargo (Consist.stock con)
  end.

(** ** Consists built by attach and separate *)

(** Every reference of the sequence leads to an object of the store. *)
Definition allocated (h : gmap loc Obj) (cars : list loc) : Prop :=
  Forall (fun car => is_Some (h !! car)) cars.

(** The objects behind a sequence of references. *)
Definition objects_of (h : gmap loc Obj) (cars : list loc) (os : list Obj)
    : Prop :=
  Forall2 (fun car o => h !! car = Some o) cars os.

(** The reference leads to a Locomotive. *)
Definition is_locomotive (h : gmap loc Obj) (car : loc) : Prop :=
  exists l, h !! car = Some (Loco l).

(** The consists obtained from a constructor call by any sequence of
    [attach] and [separate] calls, [separate] giving two of them. *)
Inductive reachable (h : gmap loc Obj) : Consist.t -> Prop :=
| reach_init number units :
    allocated h units ->
    reachable h (Consist.init number units)
| reach_attach self car :
    reachable h self ->
    is_Some (h !! car) ->
    reachable h (Consist.attach self car)
| reach_separate_rest self car new self' :
    reachable h self ->
    Consist.separate self car = (Ok new, self') ->
    reachable h self'
| reach_separate_new self car new self' :
    reachable h self ->
    Consist.separate self car = (Ok new, self') ->
    reachable h new.

(** The sum of a sequence of numbers. *)
Fixpoint total (xs : list Q) : Q :=
  match xs with
  | [] => 0%Q
  | x :: xs' => (x + total xs')%Q
  end.

(** ** Calls of the Consist constructor *)

(** The extra arguments of a call [Consist(number, *argv)]: units given
    one by one, or one iterable of units (a list or a deque). *)
Inductive ctor_args : Type :=
| Positional (units : list loc)
| Iterable (units : list loc).

Inductive ctor_result : Type :=
| Built (c : Consist.t)
| TypeError.   (* deque(x) on an object that is not iterable *)

(** [__init__]: with exactly one extra argument the stock is
    [deque(argv[0])], and a unit is not iterable; otherwise the stock is
    [deque(argv)]. *)
Definition Consist_call (number : Z) (argv : ctor_args) : ctor_result :=
  match argv with
  | Iterable units => Built (Consist.init number units)
  | Positional [_] => TypeError
  | Positional units => Built (Consist.init number units)
  end.

(** ** random_consist *)

(** [range(lo, hi)] *)
Definition range (lo hi : Z) : list Z :=
  map (fun k => (lo + Z.of_nat k)%Z) (seq 0 (Z.to_nat (hi - lo))).

(** [random_consist(loco, num, carrange)], the consist it returns (the
    printing left out): [made i] is the car built from the random draws
    in the turn [i] of the loop. *)
Definition random_consist (loco : loc) (num : Z) (carrange : Z * Z)
    (made : Z -> loc) : Consist.t :=
  let train := Consist.init num [] in
  let train := Consist.attach train loco in
  fold_left (fun train i => Consist.attach train (made i))
            (range (fst carrange) (snd carrange)) train.

(** ** Runs of load_consist as sequences of loads *)

(** The object is the same but for the weight of a car. *)
Definition same_but_weight (o o' : Obj) : Prop :=
  match o, o' with
  | Loco l, Loco l' => l' = l
  | Car r, Car r' => r' = RollingStock.set_weight r (RollingStock.weight r')
  | _, _ => False
  end.

(** The cars a run may load: all of them, or those of the car type
    given. *)
Definition eligible (T : option string) (r : RollingStock.t) : Prop :=
  match T with
  | None => True
  | Some t => RollingStock.car_type r = t
  end.

(** [loads T h cargo done h' cargo']: from the store [h] and the cargo
    [cargo], the calls of [load] on the cars [done], in order, each with
    the cargo left by the one before and none with a cargo of 0, all
    return and lead to the store [h'] and the cargo [cargo']. *)
Inductive loads (T : option string)
    : gmap loc Obj -> Q -> list loc -> gmap loc Obj -> Q -> Prop :=
| loads_nil h cargo : loads T h cargo [] h cargo
| loads_cons h cargo car r r' cargo1 done h' cargo' :
    ~ (cargo == 0)%Q ->
    h !! car = Some (Car r) ->
    eligible T r ->
    RollingStock.load r cargo = Ok (r', cargo1) ->
    loads T (<[car := Car r']> h) cargo1 done h' cargo' ->
    loads T h cargo (car :: done) h' cargo'.

(** The car behind the reference is filled to its capacity. *)
Definition full_at (h : gmap loc Obj) (x : loc) : Prop :=
  exists r,
    h !! x = Some (Car r)
    /\ (RollingStock.weight r
        == RollingStock.dry_mass r + RollingStock.capacity r)%Q.

(** ** Sample objects *)

Definition bigboy : Locomotive.t :=
  Locomotive.init "Big Boy" 4004 "4-8-8-4" "UP" 40 548 6290 130.

(** Dry mass 8, capacity 4, loaded with 2. *)
Definition gondola : RollingStock.t :=
  RollingStock.init "Gondola" "UP" 101 "red" 15 8 4 2 1000.

(** A car of capacity 0. *)
Definition flatcar0 : RollingStock.t :=
  RollingStock.init "Flatcar" "CSX" 202 "grey" 20 8 0 0 1000.

(** A store with the locomotive at 1 and the gondola at 2, and the train
    made of them. *)
Definition yard : gmap loc Obj :=
  <[2%positive := Car gondola]> (<[1%positive := Loco bigboy]> ∅).

Definition train : Consist.t := Consist.init 7 [1; 2]%positive.

(** * Python's own numbers

    The numbers of Python are ints of any size and floats, the binary64
    numbers of IEEE 754.  This part embeds them as they are, with the
    rounding of every float operation and the two exceptions of the
    arithmetic, [ZeroDivisionError] and [OverflowError], and the methods of
    [RollingStock] over them.  It is the arithmetic in which the results on
    [isfull], [load] and [unload] that depend on rounding are stated. *)

Module Py.

Inductive num : Type :=
| Int (z : Z)
| Float (f : spec_float).

(** The operations of binary64. *)
Definition fadd : spec_float -> spec_float -> spec_float := SFadd 53 1024.
Definition fsub : spec_float -> spec_float -> spec_float := SFsub 53 1024.
Definition fmul : spec_float -> spec_float -> spec_float := SFmul 53 1024.
Definition fdiv : spec_float -> spec_float -> spec_float := SFdiv 53 1024.

(** [float(z)]: the nearest float, ties to even; an int beyond the
    range of the floats raises. *)
Definition to_float (z : Z) : result spec_float :=
  match binary_normalize 53 1024 z 0 false with
  | S754_zero s => Ok (S754_zero s)
  | S754_finite s m e => Ok (S754_finite s m e)
  | _ => Raise OverflowError
  end.

(** The operand of a float operation. *)
Definition as_float (a : num) : result spec_float :=
  match a with
  | Int z => to_float z
  | Float f => Ok f
  end.

(** The quotient of two ints, neither of them 0, rounded once to the
    nearest float. *)
Definition int_quotient (x y : Z) : spec_float :=
  fdiv (S754_finite (x <? 0)%Z (Z.to_pos (Z.abs x)) 0)
       (S754_finite (y <? 0)%Z (Z.to_pos (Z.abs y)) 0).

(** [a + b], [a - b], [a * b]: exact on two ints; otherwise both operands
    are made floats, the left one first, and the float operation rounds. *)
Definition add (a b : num) : result num :=
  match a, b with
  | Int x, Int y => Ok (Int (x + y))
  | _, _ => x ← as_float a; y ← as_float b; Ok (Float (fadd x y))
  end.

Definition sub (a b : num) : result num :=
  match a, b with
  | Int x, Int y => Ok (Int (x - y))
  | _, _ => x ← as_float a; y ← as_float b; Ok (Float (fsub x y))
  end.

Definition mul (a b : num) : result num :=
  match a, b with
  | Int x, Int y => Ok (Int (x * y))
  | _, _ => x ← as_float a; y ← as_float b; Ok (Float (fmul x y))
  end.

Definition is_zero (f : spec_float) : bool :=
  match f with
  | S754_zero _ => true
  | _ => false
  end.

(** [a / b]: always a float.  On two ints the exact quotient is rounded
    once, and raises when it is beyond the floats. *)
Definition truediv (a b : num) : result num :=
  match a, b with
  | Int x, Int y =>
      if (y =? 0)%Z then Raise ZeroDivisionError
      else if (x =? 0)%Z then Ok (Float (S754_zero (y <? 0)%Z))
      else
        match int_quotient x y with
        | S754_infinity _ => Raise OverflowError
        | q => Ok (Float q)
        end
  | _, _ =>
      x ← as_float a; y ← as_float b;
      if is_zero y then Raise ZeroDivisionError else Ok (Float (fdiv x y))
  end.

(** The float written [n/d] in decimal, as [0.7] is [7/10]: the float
    nearest to the fraction. *)
Definition decimal (n d : Z) : num := Float (int_quotient n d).

(** The exact value of a number. *)
Inductive xval : Type :=
| VNaN
| VInf (negative : bool)
| VFin (q : Q).

Definition float_value (f : spec_float) : xval :=
  match f with
  | S754_zero _ => VFin 0
  | S754_infinity s => VInf s
  | S754_nan => VNaN
  | S754_finite s m e =>
      let q := match e with
               | Z0 => inject_Z (Zpos m)
               | Zpos p => inject_Z (Zpos m * 2 ^ Zpos p)
               | Zneg p => Qmake (Zpos m) (2 ^ p)
               end in
      VFin (if s then (- q)%Q else q)
  end.

Definition value (a : num) : xval :=
  match a with
  | Int z => VFin (inject_Z z)
  | Float f => float_value f
  end.

(** Comparisons are those of the exact values, also between an int and
    a float; a NaN compares with nothing. *)
Definition xcompare (a b : xval) : option comparison :=
  match a, b with
  | VNaN, _ | _, VNaN => None
  | VInf s1, VInf s2 =>
      Some (match s1, s2 with
            | true, false => Lt
            | false, true => Gt
            | _, _ => Eq
            end)
  | VInf s, VFin _ => Some (if s then Lt else Gt)
  | VFin _, VInf s => Some (if s then Gt else Lt)
  | VFin p, VFin q => Some (p ?= q)%Q
  end.

(** [a <= b], [a < b], [a > b], [a == b] *)
Definition le (a b : num) : bool :=
  match xcompare (value a) (value b) with
  | Some Lt | Some Eq => true
  | _ => false
  end.

Definition lt (a b : num) : bool :=
  match xcompare (value a) (value b) with
  | Some Lt => true
  | _ => false
  end.

Definition gt (a b : num) : bool := lt b a.


(** The number is finite and its exact value is [q]. *)
Definition has_value (a : num) (q : Q) : Prop :=
  match value a with
  | VFin p => (p == q)%Q
  | _ => False
  end.

Module RollingStock.

Record t : Type := Build {
  car_type : string;
  road : string;
  number : Z;
  color : string;
  length : num;
  dry_mass : num;
  weight : num;
  capacity : num;
  maxspeed : num
}.

Definition set_weight (self : t) (w : num) : t :=
  {| car_type := car_type self; road := road self; number := number self;
     color := color self; length := length self; dry_mass := dry_mass self;
     weight := w;
     capacity := capacity self; maxspeed := maxspeed self |}.

(** [__init__]; it raises when [dry_mass + load_mass] does. *)
Definition init (car_type road : string) (number : Z) (color : string)
    (length dry_mass capacity load_mass maxspeed : num) : result t :=
  w ← add dry_mass load_mass;
  Ok {| car_type := car_type; road := road; number := number; color := color;
        length := length; dry_mass := dry_mass; weight := w;
        capacity := capacity; maxspeed := maxspeed |}.

(** [isfull]: [(self.weight - self.dry_mass)/self.capacity] *)
Definition isfull (self : t) : result num :=
  x ← sub (weight self) (dry_mass self);
  truediv x (capacity self).

(** The expression [(1-self.isfull)*self.capacity] of [load]. *)
Definition room (self : t) : result num :=
  f ← isfull self;
  y ← sub (Int 1) f;
  mul y (capacity self).

(** [capacity - (weight - dry_mass)], the free capacity. *)
Definition free_capacity (self : t) : result num :=
  x ← sub (weight self) (dry_mass self);
  sub (capacity self) x.

(** [load(mass)]: the value returned or the exception raised, and the car
    as the call leaves it.  The last subtraction comes after the
    assignment of the weight. *)
Definition load (self : t) (mass : num) : result num * t :=
  match room self with
  | Raise x => (Raise x, self)
  | Ok r =>
      if le mass r then
        match add (weight self) mass with
        | Raise x => (Raise x, self)
        | Ok w => (Ok (Int 0), set_weight self w)
        end
      else
        match room self with
        | Raise x => (Raise x, self)
        | Ok e =>
            match add (dry_mass self) (capacity self) with
            | Raise x => (Raise x, self)
            | Ok full =>
                match sub mass e with
                | Raise x => (Raise x, set_weight self full)
                | Ok ret => (Ok ret, set_weight self full)
                end
            end
        end
  end.

(** [unload(p)]: every exception comes before the assignment. *)
Definition unload (self : t) (p : num) : result num * t :=
  match
    f ← isfull self;
    p' ← (if gt p f then isfull self else Ok p);
    x ← sub (weight self) (dry_mass self);
    mass ← mul p' x;
    w ← sub (weight self) mass;
    Ok (mass, w)
  with
  | Raise x => (Raise x, self)
  | Ok (mass, w) => (Ok mass, set_weight self w)
  end.

End RollingStock.

(** The float 1.0. *)
Definition one : spec_float := S754_finite false 4503599627370496 (-52).

(** The float is not a NaN and carries the sign bit [s]. *)
Definition signed (s : bool) (f : spec_float) : Prop :=
  match f with
  | S754_zero s' | S754_infinity s' | S754_finite s' _ _ => s' = s
  | S754_nan => False
  end.

(** The float is a zero, or negative. *)
Definition not_positive (f : spec_float) : Prop :=
  match f with
  | S754_zero _ => True
  | S754_infinity s | S754_finite s _ _ => s = true
  | S754_nan => False
  end.

(** A car with int attributes: dry mass 8, capacity 4, weight 10. *)
Definition gondola : RollingStock.t :=
  RollingStock.Build "Gondola" "UP" 101 "red"
                     (Int 15) (Int 8) (Int 10) (Int 4) (Int 1000).

(** A car with int attributes: dry mass 8, capacity 5, weight 12. *)
Definition flatcar : RollingStock.t :=
  RollingStock.Build "Flatcar" "CSX" 202 "grey"
                     (Int 20) (Int 8) (Int 12) (Int 5) (Int 1000).

End Py.

(** Comparisons between numerals, by evaluation. *)
Ltac qconst :=
  vm_compute;
  first [ reflexivity
        | discriminate
        | let H := fresh in
          intros H; first [discriminate H | apply H; reflexivity] ].

(** ** Evaluations on the sample objects *)

Example isfull_gondola : RollingStock.isfull gondola = Ok ((8 + 2 - 8) / 4)%Q.
Proof. reflexivity. Qed.

Example title_gondola : title "gondola" = "Gondola".
Proof. reflexivity. Qed.

Example title_words : title "they're 2nd hOPPER" = "They'Re 2Nd Hopper".
Proof. reflexivity. Qed.

Example separate_middle :
  Consist.separate (Consist.init 7 [1; 2; 3]%positive) 2%positive
  = (Ok (Consist.init 8 [2; 3]%positive), Consist.init 7 [1%positive]).
Proof. reflexivity. Qed.

(** ** RollingStock in exact arithmetic: evaluations *)

Section LoadClaims.
Import RollingStock.
Local Open Scope Q_scope.


(** C9 as stated fails on a car of capacity 0, which is filled exactly
    to its capacity when empty: [load] of a positive mass raises
    [ZeroDivisionError] and returns nothing. *)
Lemma load_full_capacity_zero_raises :
  weight flatcar0 == dry_mass flatcar0 + capacity flatcar0
  /\ 0 < 3
  /\ load flatcar0 3 = Raise ZeroDivisionError.
Proof.
  repeat split; qconst.
Qed.


End LoadClaims.

Section UnloadClaims.
Import RollingStock.
Local Open Scope Q_scope.

(** C1.  The gondola (dry mass 8, capacity 4) carries 2, within its
    capacity: [unload(1)] caps the fraction at the fill ratio 1/2, removes
    1 and leaves the weight at 9; the fill ratio read next is 1/4, not
    0. *)
Theorem unload_default_leaves_cargo :
  within_capacity gondola
  /\ exists self' removed f,
    unload gondola 1 = Ok (self', removed)
    /\ removed == 1
    /\ weight self' == 9
    /\ isfull self' = Ok f
    /\ f == 1 # 4
    /\ ~ f == 0.
Proof.
  split; [split; qconst|].
  eexists _, _, _.
  split; [vm_compute; reflexivity|].
  split; [qconst|]. split; [qconst|].
  split; [vm_compute; reflexivity|].
  split; qconst.
Qed.

(** C3 as stated fails: [unload(-1)] on the gondola returns normally,
    with -2 as the mass removed, and the weight goes from 10 to 12. *)
Lemma unload_negative_fraction_adds_weight :
  -1 < 0
  /\ exists self' removed,
       unload gondola (-1) = Ok (self', removed)
       /\ removed == -2
       /\ weight gondola == 10
       /\ weight self' == 12
       /\ weight gondola < weight self'.
Proof.
  split; [qconst|].
  eexists _, _. split; [vm_compute; reflexivity|].
  repeat split; qconst.
Qed.

End UnloadClaims.

(** ** deque operations on lists *)

Section DequeFacts.

Lemma index_None (x : loc) (d : list loc) :
  deque.index x d = None <-> ~ In x d.
Proof.
  induction d as [|y d IH]; cbn.
  - tauto.
  - destruct (Pos.eqb_spec y x) as [->|Hne].
    + split; [discriminate|]. intros H. exfalso. apply H. now left.
    + destruct (deque.index x d) eqn:E; cbn.
      * split; [discriminate|]. intros H. exfalso.
        destruct IH as [_ IH]. assert (Hin : In x d).
        { destruct (in_dec Pos.eq_dec x d) as [Hin|Hout]; [exact Hin|].
          specialize (IH Hout). discriminate IH. }
        apply H. now right.
      * split; [|reflexivity]. intros _ [Heq|Hin]; [congruence|].
        destruct IH as [IH _]. now apply IH.
Qed.

(** [index] finds the first occurrence. *)
Lemma index_Some (x : loc) (d : list loc) (i : nat) :
  deque.index x d = Some i ->
  exists pre suf,
    d = pre ++ x :: suf /\ ~ In x pre /\ List.length pre = i.
Proof.
  revert i. induction d as [|y d IH]; cbn; intros i H.
  - discriminate H.
  - destruct (Pos.eqb_spec y x) as [->|Hne].
    + injection H as <-. exists [], d. cbn. auto.
    + destruct (deque.index x d) as [j|] eqn:E; cbn in H; [|discriminate H].
      injection H as <-.
      destruct (IH j eq_refl) as (pre & suf & -> & Hout & Hlen).
      exists (y :: pre), suf. cbn. repeat split; [|congruence].
      intros [Heq|Hin]; [congruence|contradiction].
Qed.

Lemma index_first (x : loc) (pre suf : list loc) :
  ~ In x pre ->
  deque.index x (pre ++ x :: suf) = Some (List.length pre).
Proof.
  induction pre as [|y pre IH]; cbn; intros Hout.
  - now rewrite Pos.eqb_refl.
  - destruct (Pos.eqb_spec y x) as [->|Hne]; [exfalso; auto|].
    rewrite IH by auto. reflexivity.
Qed.

Lemma rotate_neg_step (n : nat) (d : list loc) :
  deque.rotate_neg (S n) d = deque.rotate_neg n (deque.rotate_left1 d).
Proof. unfold deque.rotate_neg. apply Nat.iter_succ_r. Qed.

(** Rotating left by the length of a prefix moves the prefix to the
    end. *)
Lemma rotate_neg_prefix (pre : list loc) :
  forall rest : list loc,
    deque.rotate_neg (List.length pre) (pre ++ rest) = rest ++ pre.
Proof.
  induction pre as [|x pre IH]; intros rest.
  - cbn. now rewrite app_nil_r.
  - cbn [List.length]. rewrite rotate_neg_step. cbn.
    unfold deque.append. rewrite <- app_assoc, IH, <- app_assoc.
    reflexivity.
Qed.

(** The loop of [separate] moves the first [n] elements, in order. *)
Lemma separate_loop_moves (moved : list loc) :
  forall rest acc : list loc,
    Consist.separate_loop (List.length moved) (moved ++ rest) acc
    = (None, rest, acc ++ moved).
Proof.
  induction moved as [|x moved IH]; intros rest acc; cbn.
  - now rewrite app_nil_r.
  - unfold deque.append. rewrite IH, <- app_assoc. reflexivity.
Qed.

(** [separate] at the first occurrence of the car. *)
Lemma separate_at (self : Consist.t) (car : loc) (pre suf : list loc) :
  Consist.stock self = pre ++ car :: suf ->
  ~ In car pre ->
  Consist.separate self car
  = (Ok (Consist.init (Consist.number self + 1) (car :: suf)),
     Consist.Build (Consist.number self) pre).
Proof.
  intros Hstock Hout. unfold Consist.separate.
  rewrite Hstock, (index_first _ _ _ Hout), rotate_neg_prefix.
  replace (List.length ((car :: suf) ++ pre) - List.length pre)%nat
    with (List.length (car :: suf))
    by (rewrite List.length_app; lia).
  rewrite separate_loop_moves. reflexivity.
Qed.

(** What a successful [separate] did. *)
Lemma separate_Ok (self new self' : Consist.t) (car : loc) :
  Consist.separate self car = (Ok new, self') ->
  exists pre suf,
    Consist.stock self = pre ++ car :: suf
    /\ Consist.stock self' = pre
    /\ Consist.stock new = car :: suf.
Proof.
  intros Hsep.
  destruct (deque.index car (Consist.stock self)) as [i|] eqn:E.
  - destruct (index_Some _ _ _ E) as (pre & suf & Hstock & Hout & _).
    rewrite (separate_at self car pre suf Hstock Hout) in Hsep.
    injection Hsep as <- <-. eauto.
  - unfold Consist.separate in Hsep. rewrite E in Hsep. discriminate Hsep.
Qed.

End DequeFacts.

(** ** Consist: separate, attach, length and weight *)

Section ConsistClaims.

(** C6.  When the car is in the stock, [separate] splits the stock at
    the first position of the car: the units before it stay in the
    consist, in order; the car and the units after it are the stock of
    the new consist, in order; the two stocks put together are the stock
    before the call; the number of the new consist is one more than that
    of the consist, which keeps its own. *)
Theorem separate_partitions_stock (self : Consist.t) (car : loc) :
  In car (Consist.stock self) ->
  exists pre suf new self',
    Consist.separate self car = (Ok new, self')
    /\ Consist.stock self = pre ++ car :: suf
    /\ ~ In car pre
    /\ Consist.stock self' = pre
    /\ Consist.stock new = car :: suf
    /\ Consist.stock self' ++ Consist.stock new = Consist.stock self
    /\ Consist.number new = (Consist.number self + 1)%Z
    /\ Consist.number self' = Consist.number self.
Proof.
  intros Hin.
  destruct (deque.index car (Consist.stock self)) as [i|] eqn:E.
  - destruct (index_Some _ _ _ E) as (pre & suf & Hstock & Hout & _).
    exists pre, suf. eexists _, _.
    split; [apply (separate_at self car pre suf Hstock Hout)|].
    cbn. rewrite Hstock. repeat split; auto.
  - apply index_None in E. contradiction.
Qed.

Lemma separate_partitions_stock_witness :
  exists pre suf new self',
    Consist.separate (Consist.init 7 [1; 2; 3; 2]%positive) 2%positive
    = (Ok new, self')
    /\ [1; 2; 3; 2]%positive = pre ++ 2%positive :: suf
    /\ ~ In 2%positive pre
    /\ Consist.stock self' = pre
    /\ Consist.stock new = 2%positive :: suf
    /\ Consist.stock self' ++ Consist.stock new = [1; 2; 3; 2]%positive
    /\ Consist.number new = 8%Z
    /\ Consist.number self' = 7%Z.
Proof.
  apply (separate_partitions_stock
           (Consist.init 7 [1; 2; 3; 2]%positive) 2%positive).
  cbn. auto.
Defined.

(** C7.  When the car is not in the stock, [separate] raises
    [ValueError], the exception of [deque.index] for a value that is not
    found, and the consist is as it was before the call. *)
Theorem separate_absent_car (self : Consist.t) (car : loc) :
  ~ In car (Consist.stock self) ->
  Consist.separate self car = (Raise ValueError, self).
Proof.
  intros Hout. apply index_None in Hout.
  unfold Consist.separate. now rewrite Hout.
Qed.

Lemma separate_absent_car_witness :
  Consist.separate (Consist.init 7 [1; 2; 3]%positive) 5%positive
  = (Raise ValueError, Consist.init 7 [1; 2; 3]%positive).
Proof.
  apply (separate_absent_car (Consist.init 7 [1; 2; 3]%positive) 5%positive).
  cbn. intros [H|[H|[H|[]]]]; discriminate H.
Defined.

End ConsistClaims.

Section ConsistTotals.
Local Open Scope Q_scope.

Lemma allocated_objects (h : gmap loc Obj) (cars : list loc) :
  allocated h cars -> exists os, objects_of h cars os.
Proof.
  induction 1 as [|car cars [o Ho] _ (os & IH)].
  - exists []. constructor.
  - exists (o :: os). now constructor.
Qed.

Lemma length_loop_total (h : gmap loc Obj) (cars : list loc) (os : list Obj) :
  objects_of h cars os ->
  forall acc : Q,
    exists r,
      Consist.length_loop h acc cars = Ok r
      /\ r == acc + total (map obj_length os).
Proof.
  induction 1 as [|car o cars os Ho _ IH]; intros acc; cbn.
  - exists acc. split; [reflexivity|ring].
  - unfold deref. rewrite Ho. cbn.
    destruct (IH (acc + obj_length o)) as (r & E & Hr).
    exists r. split; [exact E|]. rewrite Hr. ring.
Qed.

Lemma weight_loop_total (h : gmap loc Obj) (cars : list loc) (os : list Obj) :
  objects_of h cars os ->
  forall acc : Q,
    exists r,
      Consist.weight_loop h acc cars = Ok r
      /\ r == acc + total (map obj_weight os).
Proof.
  induction 1 as [|car o cars os Ho _ IH]; intros acc; cbn.
  - exists acc. split; [reflexivity|ring].
  - unfold deref. rewrite Ho. cbn.
    destruct (IH (acc + obj_weight o)) as (r & E & Hr).
    exists r. split; [exact E|]. rewrite Hr. ring.
Qed.

(** [attach] and [separate] keep the stock inside the store. *)
Lemma reachable_allocated (h : gmap loc Obj) (self : Consist.t) :
  reachable h self -> allocated h (Consist.stock self).
Proof.
  unfold allocated.
  induction 1 as [number units Hall
                 |self car _ IH Hcar
                 |self car new self' _ IH Hsep
                 |self car new self' _ IH Hsep]; cbn.
  - exact Hall.
  - unfold deque.append. apply Forall_app. split; [exact IH|].
    constructor; [exact Hcar|constructor].
  - destruct (separate_Ok _ _ _ _ Hsep) as (pre & suf & Hs & -> & _).
    rewrite Hs in IH. apply Forall_app in IH. tauto.
  - destruct (separate_Ok _ _ _ _ Hsep) as (pre & suf & Hs & _ & ->).
    rewrite Hs in IH. apply Forall_app in IH. tauto.
Qed.

(** C8.  For a consist obtained by any sequence of [attach] and
    [separate] calls, the [length] property returns the sum of the
    lengths of the units of its stock and the [weight] property the sum
    of their weights. *)
Theorem consist_length_weight_are_sums (h : gmap loc Obj) (self : Consist.t) :
  reachable h self ->
  exists os len wgt,
    objects_of h (Consist.stock self) os
    /\ Consist.length h self = Ok len
    /\ len == total (map obj_length os)
    /\ Consist.weight h self = Ok wgt
    /\ wgt == total (map obj_weight os).
Proof.
  intros Hreach.
  destruct (allocated_objects _ _ (reachable_allocated _ _ Hreach))
    as (os & Hos).
  destruct (length_loop_total _ _ _ Hos 0) as (len & El & Hl).
  destruct (weight_loop_total _ _ _ Hos 0) as (wgt & Ew & Hw).
  exists os, len, wgt. repeat split; try assumption.
  - rewrite Hl. ring.
  - rewrite Hw. ring.
Qed.

End ConsistTotals.

(** ** load_consist and locomotives *)

Section LoadConsistClaims.
Local Open Scope Q_scope.

(** A call of [load] through a reference that returns was made on a
    RollingStock, and leaves every object of the class it had. *)
Lemma call_load_Ok (h h' : gmap loc Obj) (car : loc) (cargo cargo' : Q) :
  call_load h car cargo = Ok (h', cargo') ->
  ~ is_locomotive h car
  /\ forall other, is_locomotive h' other <-> is_locomotive h other.
Proof.
  unfold call_load, deref. intros Hcall.
  destruct (h !! car) as [[l|r]|] eqn:Hcar; cbn in Hcall;
    try discriminate Hcall.
  destruct (RollingStock.load r cargo) as [[r' ov]|e]; cbn in Hcall;
    [|discriminate Hcall].
  injection Hcall as <- <-. split.
  - intros [l Hl]. congruence.
  - intros other. unfold is_locomotive.
    destruct (decide (car = other)) as [<-|Hne].
    + rewrite lookup_insert_eq, Hcar. split; intros [l Hl]; discriminate Hl.
    + rewrite lookup_insert_ne by exact Hne. reflexivity.
Qed.

(** With a car type given, no receiver of [load] is a Locomotive. *)
Lemma load_matching_skips_locomotives (typ : string) (cars : list loc) :
  forall (h : gmap loc Obj) (log : list loc) (cargo : Q),
    Forall (fun car => ~ is_locomotive h car) log ->
    Forall (fun car => ~ is_locomotive h car)
           (load_receivers (load_matching typ h log cargo cars)).
Proof.
  induction cars as [|car cars IH]; intros h log cargo Hlog; cbn.
  - exact Hlog.
  - unfold deref. destruct (h !! car) as [o|] eqn:Hcar; cbn; [|exact Hlog].
    destruct o as [l|r]; cbn; [apply IH, Hlog|].
    destruct (Qeq_bool cargo 0); cbn; [exact Hlog|].
    destruct (String.eqb _ _); [|apply IH, Hlog].
    assert (Hlog' : Forall (fun car => ~ is_locomotive h car) (log ++ [car])).
    { apply Forall_app. split; [exact Hlog|].
      constructor; [|constructor]. intros [l Hl]. congruence. }
    destruct (call_load h car cargo) as [[h' cargo']|e] eqn:Hcall; cbn;
      [|exact Hlog'].
    destruct (call_load_Ok _ _ _ _ _ Hcall) as [_ Hsame].
    eapply Forall_impl; [apply (IH h' (log ++ [car]) cargo')|].
    + eapply Forall_impl; [exact Hlog'|].
      intros other Hother. cbv beta in *. now rewrite Hsame.
    + intros other Hother. cbv beta in *. now rewrite <- Hsame.
Qed.

Lemma load_consist_with_type_skips_locomotives
    (h : gmap loc Obj) (cargo : Q) (con : Consist.t) (typ : string) :
  Forall (fun car => ~ is_locomotive h car)
         (load_receivers (load_consist h cargo con (Some typ))).
Proof.
  unfold load_consist. apply load_matching_skips_locomotives. constructor.
Qed.

(** With no car type given, a Locomotive reached with cargo left is the
    receiver of [load], and the run ends in [AttributeError]. *)
Lemma load_every_at_locomotive
    (h : gmap loc Obj) (log : list loc) (cargo : Q) (car : loc)
    (cars : list loc) :
  is_locomotive h car ->
  ~ cargo == 0 ->
  load_every h log cargo (car :: cars)
  = Run (Raise AttributeError) h (log ++ [car]).
Proof.
  intros [l Hl] Hcargo. cbn.
  destruct (Qeq_bool cargo 0) eqn:E.
  - apply Qeq_bool_iff in E. contradiction.
  - unfold call_load, deref. rewrite Hl. reflexivity.
Qed.

(** C2.  The train is the locomotive followed by the gondola.
    [load_consist(220, train)] with no car type evaluates
    [car.load(cargo)] on the locomotive and ends in [AttributeError],
    no car loaded; with the car type given the receivers are the gondola
    alone. *)
Theorem load_consist_without_type_loads_locomotive :
  is_locomotive yard 1%positive
  /\ load_consist yard 220 train None
     = Run (Raise AttributeError) yard [1%positive]
  /\ load_receivers (load_consist yard 220 train (Some "gondola"%string))
     = [2%positive].
Proof.
  split; [exists bigboy; reflexivity|].
  split; [|vm_compute; reflexivity].
  unfold load_consist, train. cbn [Consist.stock Consist.init].
  apply (load_every_at_locomotive yard [] 220 1%positive [2%positive]).
  - exists bigboy. reflexivity.
  - qconst.
Qed.

End LoadConsistClaims.

Section ConsistTotalsWitness.
Local Open Scope Q_scope.

(** The gondola attached to the train a second time, and the train
    separated at the gondola: the new consist holds the gondola twice. *)
Lemma consist_length_weight_are_sums_witness :
  exists os len wgt,
    objects_of yard [2; 2]%positive os
    /\ Consist.length yard (Consist.init 8 [2; 2]%positive) = Ok len
    /\ len == total (map obj_length os)
    /\ Consist.weight yard (Consist.init 8 [2; 2]%positive) = Ok wgt
    /\ wgt == total (map obj_weight os).
Proof.
  apply (consist_length_weight_are_sums yard (Consist.init 8 [2; 2]%positive)).
  apply (reach_separate_new yard (Consist.attach train 2%positive) 2%positive
           (Consist.init 8 [2; 2]%positive) (Consist.init 7 [1%positive])).
  - apply reach_attach.
    + apply reach_init.
      repeat constructor; eexists; vm_compute; reflexivity.
    + eexists; vm_compute; reflexivity.
  - vm_compute. reflexivity.
Defined.

End ConsistTotalsWitness.

(** ** Consist: construction, attach and separate together *)

Section ConsistMore.
Local Open Scope Q_scope.

Lemma consist_eta (self : Consist.t) :
  Consist.Build (Consist.number self) (Consist.stock self) = self.
Proof. destruct self. reflexivity. Qed.

Lemma fold_left_attach (units : list loc) :
  forall self : Consist.t,
    fold_left Consist.attach units self
    = Consist.Build (Consist.number self) (Consist.stock self ++ units).
Proof.
  induction units as [|u units IH]; intros self; cbn.
  - rewrite app_nil_r. symmetry. apply consist_eta.
  - rewrite IH. cbn. unfold deque.append. now rewrite <- app_assoc.
Qed.

(** X9.  The constructor and [attach]: a consist built from units given
    one by one, or from an iterable of units, is the empty consist with
    the units attached in order, except that a call with exactly one unit
    given by itself raises [TypeError]. *)
Theorem constructor_attaches_in_order (number : Z) (units : list loc) :
  Consist_call number (Iterable units)
  = Built (fold_left Consist.attach units (Consist.init number []))
  /\ Consist_call number (Positional units)
     = if Nat.eqb (List.length units) 1 then TypeError
       else Built (fold_left Consist.attach units (Consist.init number [])).
Proof.
  rewrite fold_left_attach. cbn [Consist.init Consist.number Consist.stock].
  cbn [app]. split; [reflexivity|].
  destruct units as [|u [|u' units]]; reflexivity.
Qed.

Lemma total_app (xs ys : list Q) : total (xs ++ ys) == total xs + total ys.
Proof.
  induction xs as [|x xs IH]; cbn.
  - ring.
  - rewrite IH. ring.
Qed.

(** The totals of a stock whose references are live. *)
Lemma totals_of (h : gmap loc Obj) (number : Z) (cars : list loc)
    (os : list Obj) :
  objects_of h cars os ->
  exists len wgt,
    Consist.length h (Consist.Build number cars) = Ok len
    /\ len == total (map obj_length os)
    /\ Consist.weight h (Consist.Build number cars) = Ok wgt
    /\ wgt == total (map obj_weight os).
Proof.
  intros Hos.
  destruct (length_loop_total _ _ _ Hos 0) as (len & El & Hl).
  destruct (weight_loop_total _ _ _ Hos 0) as (wgt & Ew & Hw).
  exists len, wgt. repeat split; try assumption; lra.
Qed.

(** X10.  Attaching a unit to a consist whose stock is live adds the
    length of the unit to the length of the consist and its weight to the
    weight of the consist. *)
Theorem attach_adds_length_and_weight
    (h : gmap loc Obj) (self : Consist.t) (car : loc) (o : Obj) :
  allocated h (Consist.stock self) ->
  h !! car = Some o ->
  exists len wgt len' wgt',
    Consist.length h self = Ok len
    /\ Consist.weight h self = Ok wgt
    /\ Consist.length h (Consist.attach self car) = Ok len'
    /\ Consist.weight h (Consist.attach self car) = Ok wgt'
    /\ len' == len + obj_length o
    /\ wgt' == wgt + obj_weight o.
Proof.
  intros Hall Hcar.
  destruct (allocated_objects _ _ Hall) as (os & Hos).
  assert (Hos' : objects_of h (Consist.stock self ++ [car]) (os ++ [o])).
  { apply Forall2_app; [exact Hos|]. constructor; [exact Hcar|constructor]. }
  destruct (totals_of h (Consist.number self) _ _ Hos)
    as (len & wgt & El & Hl & Ew & Hw).
  destruct (totals_of h (Consist.number self) _ _ Hos')
    as (len' & wgt' & El' & Hl' & Ew' & Hw').
  rewrite consist_eta in El, Ew.
  exists len, wgt, len', wgt'. repeat split; try assumption.
  - rewrite Hl', Hl, map_app, total_app. cbn. ring.
  - rewrite Hw', Hw, map_app, total_app. cbn. ring.
Qed.

Lemma attach_adds_length_and_weight_witness :
  exists len wgt len' wgt',
    Consist.length yard train = Ok len
    /\ Consist.weight yard train = Ok wgt
    /\ Consist.length yard (Consist.attach train 2%positive) = Ok len'
    /\ Consist.weight yard (Consist.attach train 2%positive) = Ok wgt'
    /\ len' == len + obj_length (Car gondola)
    /\ wgt' == wgt + obj_weight (Car gondola).
Proof.
  apply (attach_adds_length_and_weight yard train 2%positive (Car gondola)).
  - repeat constructor; eexists; vm_compute; reflexivity.
  - vm_compute. reflexivity.
Defined.

End ConsistMore.

Section SeparateMore.

(** X12.  Separating at the first unit of the stock moves the whole stock
    to the new consist and leaves the consist empty. *)
Theorem separate_at_head_moves_everything
    (self : Consist.t) (car : loc) (rest : list loc) :
  Consist.stock self = car :: rest ->
  Consist.separate self car
  = (Ok (Consist.init (Consist.number self + 1) (Consist.stock self)),
     Consist.init (Consist.number self) []).
Proof.
  intros Hs. rewrite Hs.
  apply (separate_at self car [] rest Hs). intros [].
Qed.

Lemma separate_at_head_moves_everything_witness :
  Consist.separate train 1%positive
  = (Ok (Consist.init (7 + 1) [1; 2]%positive), Consist.init 7 []).
Proof.
  apply (separate_at_head_moves_everything train 1%positive [2%positive]).
  reflexivity.
Defined.

(** X13.  Attaching a unit that the consist does not hold and separating
    at it undoes the attachment: the consist is as before and the new
    consist holds the unit alone. *)
Theorem separate_undoes_attach (self : Consist.t) (car : loc) :
  ~ In car (Consist.stock self) ->
  Consist.separate (Consist.attach self car) car
  = (Ok (Consist.init (Consist.number self + 1) [car]), self).
Proof.
  intros Hout.
  rewrite (separate_at (Consist.attach self car) car (Consist.stock self) []
             eq_refl Hout).
  cbn. now rewrite consist_eta.
Qed.

Lemma separate_undoes_attach_witness :
  Consist.separate (Consist.attach train 3%positive) 3%positive
  = (Ok (Consist.init (7 + 1) [3%positive]), train).
Proof.
  apply (separate_undoes_attach train 3%positive).
  cbn. intros [H|[H|[]]]; discriminate H.
Defined.

(** X14.  Attaching the units of the new consist back, in order, to the
    consist left by [separate] gives the consist as it was before the
    call. *)
Theorem attach_back_after_separate
    (self new self' : Consist.t) (car : loc) :
  Consist.separate self car = (Ok new, self') ->
  fold_left Consist.attach (Consist.stock new) self' = self.
Proof.
  intros Hsep.
  destruct (deque.index car (Consist.stock self)) as [i|] eqn:E.
  - destruct (index_Some _ _ _ E) as (pre & suf & Hs & Hout & _).
    rewrite (separate_at self car pre suf Hs Hout) in Hsep.
    injection Hsep as <- <-. rewrite fold_left_attach. cbn.
    rewrite <- Hs. apply consist_eta.
  - unfold Consist.separate in Hsep. rewrite E in Hsep. discriminate Hsep.
Qed.

Lemma attach_back_after_separate_witness :
  fold_left Consist.attach
            (Consist.stock (Consist.init 8 [2; 3; 2]%positive))
            (Consist.init 7 [1%positive])
  = Consist.init 7 [1; 2; 3; 2]%positive.
Proof.
  apply (attach_back_after_separate
           (Consist.init 7 [1; 2; 3; 2]%positive)
           (Consist.init 8 [2; 3; 2]%positive)
           (Consist.init 7 [1%positive]) 2%positive).
  reflexivity.
Defined.

(** X15.  After a successful [separate] the unit is no longer in the
    consist: separating at it again raises [ValueError] and changes
    nothing, while in the new consist it is the head. *)
Theorem separate_again_raises
    (self new self' : Consist.t) (car : loc) :
  Consist.separate self car = (Ok new, self') ->
  Consist.separate self' car = (Raise ValueError, self')
  /\ deque.index car (Consist.stock new) = Some O.
Proof.
  intros Hsep.
  destruct (deque.index car (Consist.stock self)) as [i|] eqn:E.
  - destruct (index_Some _ _ _ E) as (pre & suf & Hs & Hout & _).
    rewrite (separate_at self car pre suf Hs Hout) in Hsep.
    injection Hsep as <- <-. split.
    + unfold Consist.separate. cbn.
      apply index_None in Hout. now rewrite Hout.
    + cbn. now rewrite Pos.eqb_refl.
  - unfold Consist.separate in Hsep. rewrite E in Hsep. discriminate Hsep.
Qed.

Lemma separate_again_raises_witness :
  Consist.separate (Consist.init 7 [1%positive]) 2%positive
  = (Raise ValueError, Consist.init 7 [1%positive])
  /\ deque.index 2%positive (Consist.stock (Consist.init 8 [2; 3; 2]%positive))
     = Some O.
Proof.
  apply (separate_again_raises
           (Consist.init 7 [1; 2; 3; 2]%positive)
           (Consist.init 8 [2; 3; 2]%positive)
           (Consist.init 7 [1%positive]) 2%positive).
  reflexivity.
Defined.

(** X16.  The numbers given by [separate] are not distinct: two consists
    separated one after the other from the same consist carry the same
    number, one more than the number of that consist. *)
Theorem separate_twice_same_number
    (self new1 self1 new2 self2 : Consist.t) (car1 car2 : loc) :
  Consist.separate self car1 = (Ok new1, self1) ->
  Consist.separate self1 car2 = (Ok new2, self2) ->
  Consist.number new1 = Consist.number new2
  /\ Consist.number new2 = (Consist.number self + 1)%Z
  /\ Consist.number self2 = Consist.number self.
Proof.
  intros H1 H2. unfold Consist.separate in H1, H2.
  destruct (deque.index car1 (Consist.stock self)); [|discriminate H1].
  destruct (Consist.separate_loop _ _ _) as [[[e|] s1] n1] in H1;
    [discriminate H1|].
  injection H1 as <- <-. cbn in H2.
  destruct (deque.index car2 s1); [|discriminate H2].
  destruct (Consist.separate_loop _ _ _) as [[[e|] s2] n2] in H2;
    [discriminate H2|].
  injection H2 as <- <-. cbn. auto.
Qed.

Lemma separate_twice_same_number_witness :
  Consist.number (Consist.init 8 [3%positive])
  = Consist.number (Consist.init 8 [2%positive])
  /\ Consist.number (Consist.init 8 [2%positive]) = (7 + 1)%Z
  /\ Consist.number (Consist.init 7 [1%positive]) = 7%Z.
Proof.
  apply (separate_twice_same_number
           (Consist.init 7 [1; 2; 3]%positive)
           (Consist.init 8 [3%positive]) (Consist.init 7 [1; 2]%positive)
           (Consist.init 8 [2%positive]) (Consist.init 7 [1%positive])
           3%positive 2%positive); reflexivity.
Defined.

End SeparateMore.

(** ** load_consist: what a run does to the store and to the cargo *)

Section LoadConsistRuns.
Local Open Scope Q_scope.

Lemma call_load_inv (h h1 : gmap loc Obj) (car : loc) (cargo cargo1 : Q) :
  call_load h car cargo = Ok (h1, cargo1) ->
  exists r r',
    h !! car = Some (Car r)
    /\ RollingStock.load r cargo = Ok (r', cargo1)
    /\ h1 = <[car := Car r']> h.
Proof.
  unfold call_load, deref. intros Hcall.
  destruct (h !! car) as [[l|r]|]; cbn in Hcall; try discriminate Hcall.
  destruct (RollingStock.load r cargo) as [[r' ov]|e] eqn:E; cbn in Hcall;
    [|discriminate Hcall].
  injection Hcall as <- <-. eauto.
Qed.

(** A run with no car type is a sequence of loads on a first part of the
    stock, the whole stock when cargo is left. *)
Lemma load_every_loads (cars : list loc) :
  forall (h : gmap loc Obj) (log : list loc) (cargo : Q),
    exists done cargo'',
      loads None h cargo done (store (load_every h log cargo cars)) cargo''
      /\ sublist done cars
      /\ forall cargo',
           outcome (load_every h log cargo cars) = Ok cargo' ->
           cargo'' = cargo'
           /\ load_receivers (load_every h log cargo cars) = log ++ done
           /\ (~ cargo' == 0 -> done = cars).
Proof.
  induction cars as [|car cars IH]; intros h log cargo; cbn.
  - exists [], cargo. split; [constructor|]. split; [constructor|].
    intros c' [= <-]. now rewrite app_nil_r.
  - destruct (Qeq_bool cargo 0) eqn:Ez; cbn.
    + exists [], cargo. split; [constructor|].
      split; [apply sublist_nil_l|].
      intros c' [= <-]. rewrite app_nil_r. repeat split.
      intros Hne. apply Qeq_bool_iff in Ez. contradiction.
    + destruct (call_load h car cargo) as [[h1 c1]|e] eqn:Ecall; cbn.
      * destruct (call_load_inv _ _ _ _ _ Ecall) as (r & r' & Hr & El & ->).
        destruct (IH (<[car := Car r']> h) (log ++ [car]) c1)
          as (done & c'' & Hloads & Hsub & Hok).
        exists (car :: done), c''. split; [|split].
        -- eapply loads_cons; eauto; [|exact I].
           intros Hz. apply Qeq_bool_iff in Hz. congruence.
        -- now apply sublist_skip.
        -- intros c' Hc'. destruct (Hok c' Hc') as (-> & Hlog & Hall).
           rewrite Hlog, <- app_assoc. repeat split.
           intros Hne. now rewrite (Hall Hne).
      * exists [], cargo. split; [constructor|].
        split; [apply sublist_nil_l|]. intros c' [=].
Qed.

(** A run with a car type is a sequence of loads on cars of that type
    taken in order from the stock, all of them when cargo is left. *)
Lemma load_matching_loads (typ : string) (cars : list loc) :
  forall (h : gmap loc Obj) (log : list loc) (cargo : Q),
    exists done cargo'',
      loads (Some (title typ)) h cargo done
            (store (load_matching typ h log cargo cars)) cargo''
      /\ sublist done cars
      /\ forall cargo',
           outcome (load_matching typ h log cargo cars) = Ok cargo' ->
           cargo'' = cargo'
           /\ load_receivers (load_matching typ h log cargo cars) = log ++ done
           /\ (~ cargo' == 0 ->
               forall x r,
                 In x cars -> h !! x = Some (Car r) ->
                 RollingStock.car_type r = title typ -> In x done).
Proof.
  induction cars as [|car cars IH]; intros h log cargo; cbn.
  - exists [], cargo. split; [constructor|]. split; [constructor|].
    intros c' [= <-]. rewrite app_nil_r. repeat split. intros _ x r [].
  - unfold deref. destruct (h !! car) as [[l|r]|] eqn:Hcar; cbn.
    + destruct (IH h log cargo) as (done & c'' & Hloads & Hsub & Hok).
      exists done, c''. split; [exact Hloads|].
      split; [now apply sublist_cons|].
      intros c' Hc'. destruct (Hok c' Hc') as (-> & Hlog & Hall).
      repeat split; [exact Hlog|].
      intros Hne x r0 [<-|Hin] Hx Ht; [congruence|]. eapply Hall; eauto.
    + destruct (Qeq_bool cargo 0) eqn:Ez; cbn.
      { exists [], cargo. split; [constructor|].
        split; [apply sublist_nil_l|].
        intros c' [= <-]. rewrite app_nil_r. repeat split.
        intros Hne. apply Qeq_bool_iff in Ez. contradiction. }
      destruct (String.eqb_spec (RollingStock.car_type r) (title typ))
        as [Ht|Ht].
      * destruct (call_load h car cargo) as [[h1 c1]|e] eqn:Ecall; cbn.
        -- destruct (call_load_inv _ _ _ _ _ Ecall)
             as (r0 & r' & Hr & El & ->).
           assert (r0 = r) as -> by congruence.
           destruct (IH (<[car := Car r']> h) (log ++ [car]) c1)
             as (done & c'' & Hloads & Hsub & Hok).
           exists (car :: done), c''. split; [|split].
           ++ eapply loads_cons; eauto.
              intros Hz. apply Qeq_bool_iff in Hz. congruence.
           ++ now apply sublist_skip.
           ++ intros c' Hc'. destruct (Hok c' Hc') as (-> & Hlog & Hall).
              rewrite Hlog, <- app_assoc. repeat split.
              intros Hne x rx [<-|Hin] Hx Htx; [now left|].
              destruct (decide (car = x)) as [<-|Hcx]; [now left|].
              right. eapply (Hall Hne x rx Hin); [|exact Htx].
              now rewrite lookup_insert_ne.
        -- exists [], cargo. split; [constructor|].
           split; [apply sublist_nil_l|]. intros c' [=].
      * destruct (IH h log cargo) as (done & c'' & Hloads & Hsub & Hok).
        exists done, c''. split; [exact Hloads|].
        split; [now apply sublist_cons|].
        intros c' Hc'. destruct (Hok c' Hc') as (-> & Hlog & Hall).
        repeat split; [exact Hlog|].
        intros Hne x r0 [<-|Hin] Hx Htx; [congruence|]. eapply Hall; eauto.
    + exists [], cargo. split; [constructor|].
      split; [apply sublist_nil_l|]. intros c' [=].
Qed.

End LoadConsistRuns.

Section LoadsFacts.
Import RollingStock.
Local Open Scope Q_scope.

Lemma sublist_In (l k : list loc) :
  sublist l k -> forall x, In x l -> In x k.
Proof.
  induction 1 as [|y l k _ IH|y l k _ IH]; intros x Hx.
  - exact Hx.
  - destruct Hx as [<-|Hx]; [now left|right; auto].
  - right. auto.
Qed.

Lemma set_weight_same (r : t) : set_weight r (weight r) = r.
Proof. destruct r. reflexivity. Qed.

Lemma same_but_weight_refl (o : Obj) : same_but_weight o o.
Proof. destruct o as [l|r]; cbn; [reflexivity|]. symmetry. apply set_weight_same. Qed.

(** The two ways [load] returns: the mass added and 0 returned, or the
    car filled. *)
Lemma load_branches (r r' : t) (mass ret : Q) :
  load r mass = Ok (r', ret) ->
  (r' = set_weight r (weight r + mass) /\ ret = 0)
  \/ r' = set_weight r (dry_mass r + capacity r).
Proof.
  unfold load. destruct (isfull r) as [f|e]; cbn; [|discriminate].
  destruct (Qle_bool mass ((1 - f) * capacity r)); intros [= <- <-]; auto.
Qed.

(** [load] assigns the weight and nothing else. *)
Lemma load_set_weight (r r' : t) (mass ret : Q) :
  load r mass = Ok (r', ret) -> r' = set_weight r (weight r').
Proof.
  intros E. destruct (load_branches _ _ _ _ E) as [[-> _]| ->]; reflexivity.
Qed.

(** A sequence of loads leaves every object in place, the same but for
    its weight, and changes only the cars loaded. *)
Lemma loads_frame (T : option string) (h h' : gmap loc Obj) (c c' : Q)
    (done : list loc) :
  loads T h c done h' c' ->
  forall x,
    (h !! x = None -> h' !! x = None)
    /\ forall o,
         h !! x = Some o ->
         exists o',
           h' !! x = Some o'
           /\ same_but_weight o o'
           /\ (o' = o \/ (In x done /\ exists r, o = Car r /\ eligible T r)).
Proof.
  induction 1 as [h c|h c car r r' c1 done h' c' Hne Hcar Hel Hload _ IH];
    intros x.
  - split; [auto|]. intros o Ho. exists o.
    split; [exact Ho|]. split; [apply same_but_weight_refl|now left].
  - destruct (IH x) as [IHn IHs].
    destruct (decide (car = x)) as [<-|Hcx].
    + split; [congruence|]. intros o Ho.
      assert (o = Car r) as -> by congruence.
      destruct (IHs (Car r')) as (o' & Ho' & Hsame & _);
        [apply lookup_insert_eq|].
      exists o'. split; [exact Ho'|]. split.
      * destruct o' as [l|r'']; cbn in Hsame; [contradiction|]. cbn.
        rewrite Hsame, (load_set_weight _ _ _ _ Hload). reflexivity.
      * right. split; [now left|eauto].
    + rewrite lookup_insert_ne in IHn, IHs by exact Hcx.
      split; [exact IHn|]. intros o Ho.
      destruct (IHs o Ho) as (o' & Ho' & Hsame & Hch).
      exists o'. split; [exact Ho'|]. split; [exact Hsame|].
      destruct Hch as [->|[Hin Hr]]; [now left|right].
      split; [now right|exact Hr].
Qed.

(** When cargo is left after a sequence of loads, every car loaded is
    full, and so is every car that was full before. *)
Lemma loads_full (T : option string) (h h' : gmap loc Obj) (c c' : Q)
    (done : list loc) :
  loads T h c done h' c' ->
  ~ c' == 0 ->
  forall x, In x done \/ full_at h x -> full_at h' x.
Proof.
  induction 1 as [h c|h c car r r' c1 done h' c' Hne Hcar Hel Hload Hrest IH];
    intros Hleft x Hx.
  - destruct Hx as [[]|Hx]. exact Hx.
  - assert (Hc1 : ~ c1 == 0).
    { intros Hz. inversion Hrest; subst; contradiction. }
    assert (Hfull : full_at (<[car := Car r']> h) car).
    { exists r'. split; [apply lookup_insert_eq|].
      destruct (load_branches _ _ _ _ Hload) as [[_ ->]| ->].
      - exfalso. apply Hc1. reflexivity.
      - cbn. reflexivity. }
    apply (IH Hleft). destruct Hx as [[<-|Hin]|Hx].
    + now right.
    + now left.
    + right. destruct (decide (car = x)) as [<-|Hcx]; [exact Hfull|].
      destruct Hx as (rx & Hlook & Hw). exists rx.
      rewrite lookup_insert_ne by exact Hcx. auto.
Qed.

End LoadsFacts.

Section LoadConsistMore.
Import RollingStock.
Local Open Scope Q_scope.

(** Every run of [load_consist] is a sequence of loads on eligible cars
    of the stock; when it returns with cargo left, every eligible car of
    the stock was loaded. *)
Lemma load_consist_loads (h : gmap loc Obj) (cargo : Q) (con : Consist.t)
    (typ : option string) :
  exists done cargo'',
    loads (title <$> typ) h cargo done
          (store (load_consist h cargo con typ)) cargo''
    /\ (forall x, In x done -> In x (Consist.stock con))
    /\ forall cargo',
         outcome (load_consist h cargo con typ) = Ok cargo' ->
         cargo'' = cargo'
         /\ (~ cargo' == 0 ->
             forall x r,
               In x (Consist.stock con) -> h !! x = Some (Car r) ->
               eligible (title <$> typ) r -> In x done).
Proof.
  destruct typ as [typ|]; cbn.
  - destruct (load_matching_loads typ (Consist.stock con) h [] cargo)
      as (done & c'' & Hloads & Hsub & Hok).
    exists done, c''. split; [exact Hloads|].
    split; [apply sublist_In, Hsub|].
    intros c' Hc'. destruct (Hok c' Hc') as (-> & _ & Hall). auto.
  - destruct (load_every_loads (Consist.stock con) h [] cargo)
      as (done & c'' & Hloads & Hsub & Hok).
    exists done, c''. split; [exact Hloads|].
    split; [apply sublist_In, Hsub|].
    intros c' Hc'. destruct (Hok c' Hc') as (-> & _ & Hall).
    split; [reflexivity|]. intros Hne x r Hx _ _. now rewrite (Hall Hne).
Qed.

Lemma load_matching_no_cargo (typ : string) (cars : list loc) :
  forall (h : gmap loc Obj) (log : list loc) (cargo : Q),
    cargo == 0 -> allocated h cars ->
    load_matching typ h log cargo cars = Run (Ok cargo) h log.
Proof.
  induction cars as [|car cars IH]; intros h log cargo Hz Hall; cbn.
  - reflexivity.
  - inversion Hall as [|? ? [o Ho] Hall']; subst.
    unfold deref. rewrite Ho. destruct o as [l|r]; cbn.
    + apply IH; assumption.
    + apply Qeq_bool_iff in Hz. now rewrite Hz.
Qed.

(** X17.  With a cargo of 0 and a stock whose references are live,
    [load_consist] loads nothing: it returns the cargo at once, no car is
    the receiver of [load] and the store is as before. *)
Theorem load_consist_without_cargo
    (h : gmap loc Obj) (cargo : Q) (con : Consist.t) (typ : option string) :
  cargo == 0 ->
  allocated h (Consist.stock con) ->
  load_consist h cargo con typ = Run (Ok cargo) h [].
Proof.
  intros Hz Hall. destruct typ as [typ|]; cbn.
  - apply load_matching_no_cargo; assumption.
  - destruct (Consist.stock con) as [|car cars]; cbn; [reflexivity|].
    apply Qeq_bool_iff in Hz. now rewrite Hz.
Qed.

Lemma load_consist_without_cargo_witness :
  load_consist yard 0 train (Some "gondola"%string) = Run (Ok 0) yard []
  /\ load_consist yard 0 train None = Run (Ok 0) yard [].
Proof.
  assert (Hall : allocated yard (Consist.stock train))
    by (repeat constructor; eexists; vm_compute; reflexivity).
  split.
  - apply (load_consist_without_cargo yard 0 train (Some "gondola"%string));
      [qconst|exact Hall].
  - apply (load_consist_without_cargo yard 0 train None);
      [qconst|exact Hall].
Defined.

(** X18.  Whatever the outcome, [load_consist] leaves every object of the
    store in place and the same but for the weight of a car; an object
    that differs from what it was is a car of the stock and, when a car
    type is given, a car of that type put in title form.  Locomotives,
    cars that are not in the consist and cars of another type are
    untouched. *)
Theorem load_consist_changes_only_weights
    (h : gmap loc Obj) (cargo : Q) (con : Consist.t) (typ : option string)
    (x : loc) (o : Obj) :
  h !! x = Some o ->
  exists o',
    store (load_consist h cargo con typ) !! x = Some o'
    /\ same_but_weight o o'
    /\ (o' = o
        \/ (In x (Consist.stock con)
            /\ exists r, o = Car r /\ eligible (title <$> typ) r)).
Proof.
  intros Ho.
  destruct (load_consist_loads h cargo con typ)
    as (done & c'' & Hloads & Hsub & _).
  destruct (loads_frame _ _ _ _ _ _ Hloads x) as [_ Hs].
  destruct (Hs o Ho) as (o' & Ho' & Hsame & Hch).
  exists o'. split; [exact Ho'|]. split; [exact Hsame|].
  destruct Hch as [->|[Hin Hr]]; [now left|right]. auto.
Qed.

Lemma load_consist_changes_only_weights_witness :
  exists o',
    store (load_consist yard 220 train (Some "gondola"%string)) !! 2%positive
    = Some o'
    /\ same_but_weight (Car gondola) o'
    /\ (o' = Car gondola
        \/ (In 2%positive (Consist.stock train)
            /\ exists r,
                 Car gondola = Car r
                 /\ eligible (title <$> Some "gondola"%string) r)).
Proof.
  apply (load_consist_changes_only_weights yard 220 train
           (Some "gondola"%string) 2%positive (Car gondola)).
  vm_compute. reflexivity.
Defined.

End LoadConsistMore.

Section LoadConsistOutcomes.
Import RollingStock.
Local Open Scope Q_scope.

(** X21.  When [load_consist] returns with cargo left, every car of the
    stock that it may load (every car, or every car of the type given put
    in title form) is filled to its capacity. *)
Theorem load_consist_leftover_means_full
    (h : gmap loc Obj) (cargo cargo' : Q) (con : Consist.t)
    (typ : option string) (x : loc) (r : t) :
  outcome (load_consist h cargo con typ) = Ok cargo' ->
  ~ cargo' == 0 ->
  In x (Consist.stock con) ->
  h !! x = Some (Car r) ->
  eligible (title <$> typ) r ->
  full_at (store (load_consist h cargo con typ)) x.
Proof.
  intros Hout Hleft Hx Hr Hel.
  destruct (load_consist_loads h cargo con typ)
    as (done & c'' & Hloads & Hsub & Hok).
  destruct (Hok cargo' Hout) as [-> Hall].
  apply (loads_full _ _ _ _ _ _ Hloads Hleft). left.
  apply (Hall Hleft x r Hx Hr Hel).
Qed.

Lemma load_consist_leftover_means_full_witness :
  full_at (store (load_consist yard 220 train (Some "gondola"%string)))
          2%positive.
Proof.
  apply (load_consist_leftover_means_full yard 220
           (220 - (1 - (8 + 2 - 8) / 4) * 4) train (Some "gondola"%string)
           2%positive gondola).
  - vm_compute. reflexivity.
  - qconst.
  - cbn. auto.
  - vm_compute. reflexivity.
  - vm_compute. reflexivity.
Defined.

End LoadConsistOutcomes.

(** ** The car type filter and str.title *)

Section TitleFilter.
Import RollingStock.

Lemma title_char_stable (b : bool) (c : ascii) :
  let c' := if b then to_lower c else to_upper c in
  (if b then to_lower c' else to_upper c') = c'
  /\ (is_upper c' || is_lower c') = (is_upper c || is_lower c).
Proof.
  destruct b; destruct c as [[] [] [] [] [] [] [] []];
    split; vm_compute; reflexivity.
Qed.

(** Text in title form is not changed by [title]. *)
Lemma title_from_idempotent (s : string) :
  forall b, title_from b (title_from b s) = title_from b s.
Proof.
  induction s as [|c s IH]; intros b; cbn.
  - reflexivity.
  - destruct (title_char_stable b c) as [H1 H2]. cbv zeta in H1, H2.
    rewrite H1, H2, IH. reflexivity.
Qed.

Lemma title_idempotent (s : string) : title (title s) = title s.
Proof. apply title_from_idempotent. Qed.

Lemma load_matching_title (typ : string) (cars : list loc) :
  forall (h : gmap loc Obj) (log : list loc) (cargo : Q),
    load_matching (title typ) h log cargo cars
    = load_matching typ h log cargo cars.
Proof.
  induction cars as [|car cars IH]; intros h log cargo; cbn.
  - reflexivity.
  - rewrite title_idempotent.
    destruct (deref h car) as [o|e]; [|reflexivity].
    destruct (isinstance_Locomotive o); [apply IH|].
    destruct (Qeq_bool cargo 0); [reflexivity|].
    destruct (obj_car_type o) as [ct|e]; [|reflexivity].
    destruct (String.eqb ct (title typ)); [|apply IH].
    destruct (call_load h car cargo) as [[h1 c1]|e]; [apply IH|reflexivity].
Qed.

(** X24.  For a car type written in ASCII, the type counts in title form
    only: the run with the type is the run with the type already put in
    title form, so that [gondola] and [Gondola] load the same cars. *)
Theorem load_consist_type_in_title_form
    (h : gmap loc Obj) (cargo : Q) (con : Consist.t) (typ : string) :
  is_ascii typ = true ->
  load_consist h cargo con (Some (title typ))
  = load_consist h cargo con (Some typ).
Proof. intros _. apply load_matching_title. Qed.

Lemma load_consist_type_in_title_form_witness :
  load_consist yard 220 train (Some (title "gondola"))
  = load_consist yard 220 train (Some "gondola"%string).
Proof.
  apply (load_consist_type_in_title_form yard 220 train "gondola"%string).
  vm_compute. reflexivity.
Defined.

(** X25.  With car types written in ASCII, a car whose car type is not in
    title form is never loaded when a car type is given, whatever the
    type given: the run leaves it as it is. *)
Theorem load_consist_skips_type_not_in_title_form
    (h : gmap loc Obj) (cargo : Q) (con : Consist.t) (typ : string)
    (x : loc) (r : t) :
  h !! x = Some (Car r) ->
  is_ascii typ = true ->
  is_ascii (car_type r) = true ->
  title (car_type r) <> car_type r ->
  store (load_consist h cargo con (Some typ)) !! x = Some (Car r).
Proof.
  intros Hx _ _ Hform.
  destruct (load_consist_loads h cargo con (Some typ))
    as (done & c'' & Hloads & _ & _).
  destruct (loads_frame _ _ _ _ _ _ Hloads x) as [_ Hs].
  destruct (Hs _ Hx) as (o' & Ho' & _ & [->|(_ & r0 & [= <-] & Hel)]).
  - exact Ho'.
  - cbn in Hel. exfalso. apply Hform.
    rewrite Hel. apply title_idempotent.
Qed.

Lemma load_consist_skips_type_not_in_title_form_witness :
  store (load_consist (<[2%positive := Car (Build "gondola" "UP" 101 "red"
                                              15 8 10 4 1000)]> yard)
                      220 train (Some "gondola"%string)) !! 2%positive
  = Some (Car (Build "gondola" "UP" 101 "red" 15 8 10 4 1000)).
Proof.
  apply (load_consist_skips_type_not_in_title_form
           (<[2%positive := Car (Build "gondola" "UP" 101 "red"
                                   15 8 10 4 1000)]> yard)
           220 train "gondola"%string 2%positive
           (Build "gondola" "UP" 101 "red" 15 8 10 4 1000)).
  - vm_compute. reflexivity.
  - vm_compute. reflexivity.
  - vm_compute. reflexivity.
  - vm_compute. discriminate.
Defined.

End TitleFilter.

(** ** random_consist *)

Section RandomConsist.
Local Open Scope Q_scope.

Lemma fold_left_attach_made (made : Z -> loc) (turns : list Z) :
  forall train : Consist.t,
    fold_left (fun train i => Consist.attach train (made i)) turns train
    = Consist.Build (Consist.number train)
                    (Consist.stock train ++ map made turns).
Proof.
  induction turns as [|i turns IH]; intros train; cbn.
  - rewrite app_nil_r. symmetry. apply consist_eta.
  - rewrite IH. cbn. unfold deque.append. now rewrite <- app_assoc.
Qed.

(** X26.  The consist returned by [random_consist] carries the number
    given and holds the locomotive first, followed by one car for each
    turn of [range(carrange[0], carrange[1])]: its stock counts
    [1 + max(0, carrange[1] - carrange[0])] units, 20 for the default
    range (1, 20). *)
Theorem random_consist_locomotive_first
    (loco : loc) (num : Z) (lo hi : Z) (made : Z -> loc) :
  let con := random_consist loco num (lo, hi) made in
  Consist.number con = num
  /\ Consist.stock con = loco :: map made (range lo hi)
  /\ List.length (Consist.stock con) = S (Z.to_nat (hi - lo))
  /\ deque.index loco (Consist.stock con) = Some O.
Proof.
  cbv zeta. unfold random_consist. rewrite fold_left_attach_made. cbn.
  repeat split.
  - unfold range. now rewrite !length_map, length_seq.
  - now rewrite Pos.eqb_refl.
Qed.

(** X27.  A consist returned by [random_consist] cannot be loaded without
    a car type: as soon as there is cargo, [load_consist] calls [load] on
    the locomotive at its head and ends in [AttributeError], no car
    loaded. *)
Theorem random_consist_needs_a_car_type
    (h : gmap loc Obj) (cargo : Q) (loco : loc) (num : Z)
    (carrange : Z * Z) (made : Z -> loc) :
  is_locomotive h loco ->
  ~ cargo == 0 ->
  load_consist h cargo (random_consist loco num carrange made) None
  = Run (Raise AttributeError) h [loco].
Proof.
  intros Hloco Hcargo. unfold load_consist, random_consist.
  rewrite fold_left_attach_made. cbn [Consist.stock Consist.attach].
  cbn [Consist.init Consist.stock deque.append app].
  apply (load_every_at_locomotive h [] cargo loco _ Hloco Hcargo).
Qed.

Lemma random_consist_needs_a_car_type_witness :
  load_consist yard 220
               (random_consist 1%positive 7 (1, 20)%Z (fun _ => 2%positive))
               None
  = Run (Raise AttributeError) yard [1%positive].
Proof.
  apply (random_consist_needs_a_car_type yard 220 1%positive 7 (1, 20)%Z
           (fun _ => 2%positive)).
  - exists bigboy. vm_compute. reflexivity.
  - qconst.
Defined.

End RandomConsist.

(** * RollingStock over Python's own numbers *)

(** ** Comparisons *)

Section PyComparisons.
Import Py.
Local Open Scope Q_scope.



(** A negative number is not above a number that is not negative. *)
Lemma negative_not_above (p f : num) :
  lt p (Int 0) = true -> le (Int 0) f = true -> gt p f = false.
Proof.
  unfold gt, lt, le. cbn [value].
  destruct (value p) as [|sp|qp]; cbn; try discriminate.
  - destruct sp; try discriminate. intros _.
    destruct (value f) as [|sf|qf]; cbn; try discriminate.
    + destruct sf; try discriminate; reflexivity.
    + reflexivity.
  - destruct (qp ?= inject_Z 0) eqn:Ep; try discriminate. intros _.
    apply Qlt_alt in Ep.
    destruct (value f) as [|sf|qf]; cbn; try discriminate.
    + destruct sf; try discriminate; reflexivity.
    + destruct (inject_Z 0 ?= qf) eqn:Ef; try discriminate; intros _;
        destruct (qf ?= qp) eqn:E; try reflexivity;
        apply Qlt_alt in E;
        [apply Qeq_alt in Ef|apply Qlt_alt in Ef]; lra.
Qed.

(** A positive number is not at most a zero. *)
Lemma positive_not_le_zero (m : num) (s : bool) :
  lt (Int 0) m = true -> le m (Float (S754_zero s)) = false.
Proof.
  unfold lt, le. cbn [value float_value].
  destruct (value m) as [|sm|qm]; cbn; try discriminate.
  - destruct sm; discriminate || reflexivity.
  - change (inject_Z 0) with 0.
    destruct (0 ?= qm) eqn:E; try discriminate. intros _.
    apply Qlt_alt in E.
    destruct (qm ?= 0) eqn:E'; try reflexivity.
    + apply Qeq_alt in E'. lra.
    + apply Qlt_alt in E'. lra.
Qed.

(** A float made from an int is a zero or a finite float. *)
Lemma to_float_finite (z : Z) (c : spec_float) :
  to_float z = Ok c ->
  (exists s, c = S754_zero s) \/ (exists s m e, c = S754_finite s m e).
Proof.
  unfold to_float.
  destruct (binary_normalize 53 1024 z 0 false); intros [= <-]; eauto.
Qed.

End PyComparisons.

(** ** load *)

Section PyLoad.
Import Py Py.RollingStock.

(** Rounding in the room.  On the car with dry mass 8, capacity 5 and
    weight 12 the free capacity is 1 and the room computed is
    [(1 - 0.8) * 5 = 0.9999999999999998]: [load(1)] fills the car and
    returns [2**-52], not 0. *)
Example load_with_rounded_room :
  free_capacity flatcar = Ok (Int 1)
  /\ room flatcar = Ok (Float (S754_finite false 9007199254740990 (-53)))
  /\ load flatcar (Int 1)
     = (Ok (Float (S754_finite false 4503599627370496 (-104))),
        set_weight flatcar (Int 13)).
Proof. repeat split; vm_compute; reflexivity. Qed.

(** An int beyond the floats: the fill ratio cannot be computed, and a
    mass beyond the floats makes [load] raise after it has assigned the
    weight. *)
Example load_beyond_the_floats :
  isfull (set_weight flatcar (Int (10 ^ 400))) = Raise OverflowError
  /\ load flatcar (Int (10 ^ 400))
     = (Raise OverflowError, set_weight flatcar (Int 13)).
Proof. split; vm_compute; reflexivity. Qed.



(** What [isfull = 1.0] says of the capacity: as a float it is neither
    an infinity nor a NaN. *)
Lemma full_capacity_is_finite (self : t) (c : spec_float) :
  isfull self = Ok (Float one) ->
  as_float (capacity self) = Ok c ->
  (exists s, c = S754_zero s) \/ (exists s m e, c = S754_finite s m e).
Proof.
  unfold isfull. intros Hfull Hc.
  destruct (capacity self) as [z|g]; cbn in Hc.
  - apply (to_float_finite z c Hc).
  - injection Hc as ->.
    destruct c as [s|s| |s m e]; eauto; exfalso;
      destruct (sub (weight self) (dry_mass self)) as [[x|x]|err];
      cbn in Hfull; try discriminate Hfull.
    + destruct (to_float x) as [xf|err]; cbn in Hfull;
        [destruct xf|]; discriminate Hfull.
    + destruct x; discriminate Hfull.
    + destruct (to_float x) as [xf|err]; cbn in Hfull;
        [destruct xf|]; discriminate Hfull.
    + destruct x; discriminate Hfull.
Qed.

(** On a car whose fill ratio is 1.0 the room computed is a zero. *)
Lemma full_car_has_no_room (self : t) (c : spec_float) :
  isfull self = Ok (Float one) ->
  as_float (capacity self) = Ok c ->
  exists s, room self = Ok (Float (S754_zero s)).
Proof.
  intros Hfull Hc.
  destruct (full_capacity_is_finite self c Hfull Hc)
    as [[s ->]|(s & m & e & ->)];
    unfold room; rewrite Hfull; cbn [mbind result_bind];
    change (sub (Int 1) (Float one)) with (Ok (Float (S754_zero false)));
    cbn [mbind result_bind]; unfold mul;
    change (as_float (Float (S754_zero false)))
      with (Ok (S754_zero false) : result spec_float);
    cbn [mbind result_bind]; rewrite Hc; cbn; eauto.
Qed.

(** Taking a zero from a float leaves its value. *)
Lemma fsub_zero_value (g : spec_float) (s : bool) :
  float_value (fsub g (S754_zero s)) = float_value g.
Proof. destruct g as [sg|sg| |sg m e]; try reflexivity. destruct sg, s; reflexivity. Qed.

(** C9, amended.  On a car whose fill ratio, as [isfull] computes it, is
    exactly 1.0 (a car filled exactly to its capacity, the capacity not
    0 and the ratio not rounded away from 1), and whose capacity a float
    can hold, [load] of a positive mass returns the mass as a float of
    the same value as [float(mass)], and sets the weight to
    [dry_mass + capacity]. *)
Theorem load_on_full_car_returns_the_mass
    (self : t) (mass : num) (c g : spec_float) (full : num) :
  isfull self = Ok (Float one) ->
  as_float (capacity self) = Ok c ->
  lt (Int 0) mass = true ->
  as_float mass = Ok g ->
  add (dry_mass self) (capacity self) = Ok full ->
  exists ret,
    load self mass = (Ok (Float ret), set_weight self full)
    /\ float_value ret = float_value g.
Proof.
  intros Hfull Hc Hpos Hg Hadd.
  destruct (full_car_has_no_room self c Hfull Hc) as [s Hroom].
  unfold load. rewrite Hroom, (positive_not_le_zero mass s Hpos), Hadd.
  exists (fsub g (S754_zero s)). split; [|apply fsub_zero_value].
  unfold sub. destruct mass as [z|gm]; cbn [as_float] in *.
  - rewrite Hg. reflexivity.
  - injection Hg as ->. reflexivity.
Qed.

Lemma load_on_full_car_returns_the_mass_witness :
  exists ret,
    load (set_weight gondola (Int 12)) (Int 3)
    = (Ok (Float ret), set_weight (set_weight gondola (Int 12)) (Int 12))
    /\ float_value ret
       = float_value (S754_finite false 6755399441055744 (-51)).
Proof.
  apply (load_on_full_car_returns_the_mass
           (set_weight gondola (Int 12)) (Int 3)
           (S754_finite false 4503599627370496 (-50))
           (S754_finite false 6755399441055744 (-51)) (Int 12));
    vm_compute; reflexivity.
Defined.

End PyLoad.

Section PyLoadConservation.
Import Py Py.RollingStock.
Local Open Scope Q_scope.



End PyLoadConservation.

(** ** Signs of floats *)

Section PySigns.
Import Py.

Lemma shr_1_nonneg mrs : (0 <= shr_m mrs)%Z -> (0 <= shr_m (shr_1 mrs))%Z.
Proof.
  destruct mrs as [m r s]. cbn. destruct m as [|[p|p|]|[p|p|]]; cbn; lia.
Qed.

Lemma iter_shr_1_nonneg p : forall mrs,
  (0 <= shr_m mrs)%Z -> (0 <= shr_m (SpecFloat.iter_pos shr_1 p mrs))%Z.
Proof.
  induction p as [p IH|p IH|]; intros mrs H; cbn.
  - apply IH, IH, shr_1_nonneg, H.
  - apply IH, IH, H.
  - apply shr_1_nonneg, H.
Qed.

Lemma shr_fexp_nonneg m e l :
  (0 <= m)%Z -> (0 <= shr_m (fst (shr_fexp 53 1024 m e l)))%Z.
Proof.
  intros H. unfold shr_fexp, shr.
  assert (H0 : (0 <= shr_m (shr_record_of_loc m l))%Z)
    by (destruct l as [|[]]; exact H).
  destruct (_ - e)%Z; cbn [fst]; [exact H0| |exact H0].
  apply iter_shr_1_nonneg, H0.
Qed.

Lemma round_nearest_even_nonneg m l :
  (0 <= m)%Z -> (0 <= round_nearest_even m l)%Z.
Proof.
  intros H. destruct l as [|[]]; cbn; try exact H; try lia.
  destruct (Z.even m); lia.
Qed.

(** Rounding a magnitude keeps the sign given with it. *)
Lemma binary_round_aux_signed s m e l :
  (0 <= m)%Z -> signed s (binary_round_aux 53 1024 s m e l).
Proof.
  intros H. unfold binary_round_aux.
  pose proof (shr_fexp_nonneg m e l H) as H1.
  destruct (shr_fexp 53 1024 m e l) as [mrs' e'] eqn:E1. cbn [fst] in H1.
  pose proof (shr_fexp_nonneg _ e' loc_Exact
                (round_nearest_even_nonneg _ (loc_of_shr_record mrs') H1)) as H2.
  destruct (shr_fexp 53 1024 _ e' loc_Exact) as [mrs'' e''] eqn:E2.
  cbn [fst] in H2.
  destruct (shr_m mrs'') as [|p|p]; cbn; try reflexivity; [|lia].
  destruct (e'' <=? 1024 - 53)%Z; reflexivity.
Qed.

Local Open Scope Q_scope.

(** The float made from an int has the sign of the int. *)
Lemma to_float_signed (z : Z) (c : spec_float) :
  to_float z = Ok c ->
  match c with
  | S754_zero _ => True
  | S754_finite s _ _ => s = (z <? 0)%Z
  | _ => False
  end.
Proof.
  unfold to_float. destruct z as [|p|p]; cbn.
  - intros [= <-]. exact I.
  - unfold binary_round.
    destruct (shl_align p 0 _) as [mz ez].
    pose proof (binary_round_aux_signed false (Zpos mz) ez loc_Exact) as H.
    destruct (binary_round_aux 53 1024 false (Zpos mz) ez loc_Exact);
      intros [= <-]; cbn in H; [exact I|]. apply H. lia.
  - unfold binary_round.
    destruct (shl_align p 0 _) as [mz ez].
    pose proof (binary_round_aux_signed true (Zpos mz) ez loc_Exact) as H.
    destruct (binary_round_aux 53 1024 true (Zpos mz) ez loc_Exact);
      intros [= <-]; cbn in H; [exact I|]. apply H. lia.
Qed.

(** The magnitude of a finite float is positive. *)
Lemma magnitude_positive (m : positive) (e : Z) :
  0 < match e with
      | Z0 => inject_Z (Zpos m)
      | Zpos p => inject_Z (Zpos m * 2 ^ Zpos p)
      | Zneg p => Qmake (Zpos m) (2 ^ p)
      end.
Proof.
  destruct e as [|p|p]; unfold Qlt; cbn; lia.
Qed.

Lemma Qcompare_inject_Z (a b : Z) : (inject_Z a ?= inject_Z b) = (a ?= b)%Z.
Proof. unfold Qcompare. cbn. now rewrite !Z.mul_1_r. Qed.

(** A finite negative number, taken as a float, is a finite float with
    the sign bit set, when it is not a zero. *)
Lemma negative_finite_float (p : num) (q : Q) (pf : spec_float) :
  lt p (Int 0) = true -> has_value p q -> as_float p = Ok pf ->
  (exists s, pf = S754_zero s) \/ exists m e, pf = S754_finite true m e.
Proof.
  intros Hlt Hv Hp. destruct p as [z|g]; cbn in Hp.
  - pose proof (to_float_signed z pf Hp) as H.
    unfold lt in Hlt. cbn in Hlt. rewrite Qcompare_inject_Z in Hlt.
    destruct pf as [s|s| |s m e]; try contradiction; eauto.
    right. exists m, e. rewrite H. f_equal. apply Z.ltb_lt.
    destruct (Z.compare_spec z 0); try discriminate Hlt; lia.
  - injection Hp as ->. unfold lt, has_value in *. cbn in *.
    destruct pf as [s|s| |s m e]; cbn in *; try contradiction; eauto.
    destruct s; eauto. exfalso.
    pose proof (magnitude_positive m e) as Hpos.
    set (mag := match e with Z0 => _ | Zpos p => _ | Zneg p => _ end) in *.
    change (inject_Z 0) with 0 in Hlt.
    destruct (mag ?= 0) eqn:E; try discriminate Hlt.
    apply Qlt_alt in E. lra.
Qed.

(** A finite number that is not negative, taken as a float, is a zero or
    a finite float with the sign bit clear. *)
Lemma nonneg_finite_float (x : num) (q : Q) (xf : spec_float) :
  le (Int 0) x = true -> has_value x q -> as_float x = Ok xf ->
  (exists s, xf = S754_zero s) \/ exists m e, xf = S754_finite false m e.
Proof.
  intros Hle Hv Hx. destruct x as [z|g]; cbn in Hx.
  - pose proof (to_float_signed z xf Hx) as H.
    unfold le in Hle. cbn in Hle. rewrite Qcompare_inject_Z in Hle.
    destruct xf as [s|s| |s m e]; try contradiction; eauto.
    right. exists m, e. rewrite H.
    f_equal. apply Z.ltb_ge.
    destruct (Z.compare_spec 0 z); try discriminate Hle; lia.
  - injection Hx as ->. unfold le, has_value in *. cbn in *.
    destruct xf as [s|s| |s m e]; cbn in *; try contradiction; eauto.
    destruct s; eauto. exfalso.
    pose proof (magnitude_positive m e) as Hpos.
    set (mag := match e with Z0 => _ | Zpos p => _ | Zneg p => _ end) in *.
    change (inject_Z 0) with 0 in Hle.
    destruct (0 ?= - mag) eqn:E; try discriminate Hle.
    + apply Qeq_alt in E. lra.
    + apply Qlt_alt in E. lra.
Qed.

Lemma signed_not_positive f : signed true f -> not_positive f.
Proof. destruct f; cbn; auto. Qed.

(** A float that is a zero or has its sign bit set is at most 0. *)
Lemma not_positive_le_zero (f : spec_float) :
  not_positive f -> le (Float f) (Int 0) = true.
Proof.
  unfold le. cbn. destruct f as [s|s| |s m e]; cbn; try contradiction.
  - reflexivity.
  - intros ->. reflexivity.
  - intros ->. pose proof (magnitude_positive m e) as Hpos.
    set (mag := match e with Z0 => _ | Zpos p => _ | Zneg p => _ end) in *.
    change (inject_Z 0) with 0.
    destruct (- mag ?= 0) eqn:E; try reflexivity.
    apply Qgt_alt in E. lra.
Qed.

(** The product of a finite negative number and a finite number that is
    not negative is not positive, whatever the rounding. *)
Lemma mul_negative_nonneg (p x removed : num) (qp qx : Q) :
  lt p (Int 0) = true -> has_value p qp ->
  le (Int 0) x = true -> has_value x qx ->
  mul p x = Ok removed ->
  le removed (Int 0) = true.
Proof.
  intros Hp Hvp Hx Hvx Hmul.
  destruct p as [zp|gp], x as [zx|gx].
  1: { cbn in Hmul. injection Hmul as <-.
       unfold lt, le in *. cbn in *.
       rewrite Qcompare_inject_Z in *.
       assert (zp < 0)%Z
         by (destruct (Z.compare_spec zp 0); try discriminate Hp; lia).
       assert (0 <= zx)%Z
         by (destruct (Z.compare_spec 0 zx); try discriminate Hx; lia).
       destruct (Z.compare_spec (zp * zx) 0); try reflexivity. nia. }
  all: match type of Hmul with
       | mul ?a ?b = _ =>
           destruct (as_float a) as [pf|err] eqn:Epf;
           [destruct (as_float b) as [xf|err] eqn:Exf|]
       end;
    unfold mul in Hmul; rewrite ?Epf, ?Exf in Hmul;
    cbn [mbind result_bind] in Hmul; try discriminate Hmul;
    injection Hmul as <-;
    apply not_positive_le_zero;
    destruct (negative_finite_float _ _ _ Hp Hvp Epf)
      as [[s ->]|(m & e & ->)];
    destruct (nonneg_finite_float _ _ _ Hx Hvx Exf)
      as [[s' ->]|(m' & e' & ->)];
    try exact I;
    apply signed_not_positive;
    apply (binary_round_aux_signed true); lia.
Qed.

End PySigns.

(** ** unload *)

Section PyUnload.
Import Py Py.RollingStock.

(** C3, amended.  [unload] makes no test of the sign of the fraction and
    has no error of its own.  On a car whose fill ratio is computed and
    is not negative, a negative fraction [p] is used as it is: when the
    product [p * (weight - dry_mass)] and the difference of the weight
    and it are computed, the call returns the product and the weight
    becomes that difference.  With a finite fraction and a finite load
    that is not negative, the mass returned is not positive, whatever
    the rounding: nothing is unloaded. *)
Theorem unload_uses_negative_fraction
    (self : t) (p f x removed w : num) :
  isfull self = Ok f ->
  le (Int 0) f = true ->
  lt p (Int 0) = true ->
  sub (weight self) (dry_mass self) = Ok x ->
  mul p x = Ok removed ->
  sub (weight self) removed = Ok w ->
  unload self p = (Ok removed, set_weight self w)
  /\ (forall qp qx : Q,
        has_value p qp -> has_value x qx -> le (Int 0) x = true ->
        le removed (Int 0) = true).
Proof.
  intros Hf Hnn Hneg Hx Hmul Hw. split.
  - unfold unload.
    rewrite Hf. cbn [mbind result_bind].
    rewrite (negative_not_above p f Hneg Hnn). cbn [mbind result_bind].
    rewrite Hx. cbn [mbind result_bind].
    rewrite Hmul. cbn [mbind result_bind].
    rewrite Hw. reflexivity.
  - intros qp qx Hp Hqx Hx0.
    exact (mul_negative_nonneg p x removed qp qx Hneg Hp Hx0 Hqx Hmul).
Qed.

Lemma unload_uses_negative_fraction_witness :
  unload gondola (Int (-1))
  = (Ok (Int (-2)), set_weight gondola (Int 12))
  /\ le (Int (-2)) (Int 0) = true.
Proof.
  destruct (unload_uses_negative_fraction gondola (Int (-1))
              (Float (S754_finite false 4503599627370496 (-53))) (Int 2)
              (Int (-2)) (Int 12)) as [Hcall Hsign];
    try (vm_compute; reflexivity).
  split; [exact Hcall|].
  apply (Hsign (-1 # 1)%Q (2 # 1)%Q); vm_compute; reflexivity.
Defined.

End PyUnload.

(** ** The weight and the capacity, with rounding *)

Section PyInvariant.
Import Py Py.RollingStock.

(** C4.  A car built with dry mass 0, capacity 25 and load 24:
    [unload(0.7)] returns 16.799999999999997 and leaves the weight at
    7.200000000000003; [load(17.8)] then finds the mass within the room
    it computes, adds it and returns 0, and the weight is
    25.000000000000004, above [dry_mass + capacity], the fill ratio
    1.0000000000000002, above 1.  And a car built with dry mass 0.9,
    capacity 2.4 and load 2.4, for which the fill ratio computed is 1.0:
    [unload(1)] leaves the weight at 0.8999999999999999, under the dry
    mass. *)
Theorem weight_leaves_capacity_by_rounding :
  (exists car r1 s1 s2 full f,
     init "Hopper" "SOO" 303 "brown" (Int 17) (Int 0) (Int 25) (Int 24)
          (Int 1000) = Ok car
     /\ le (Int 0) (Int 24) = true /\ le (Int 24) (Int 25) = true
     /\ lt (Int 0) (Int 25) = true
     /\ le (Int 0) (decimal 7 10) = true
     /\ le (Int 0) (decimal 178 10) = true
     /\ unload car (decimal 7 10) = (Ok r1, s1)
     /\ load s1 (decimal 178 10) = (Ok (Int 0), s2)
     /\ add (dry_mass s2) (capacity s2) = Ok full
     /\ gt (weight s2) full = true
     /\ isfull s2 = Ok f
     /\ gt f (Int 1) = true)
  /\ (exists car r1 s1,
        init "Boxcar" "CSX" 404 "blue" (Int 12) (decimal 9 10)
             (decimal 24 10) (decimal 24 10) (Int 1000) = Ok car
        /\ le (Int 0) (decimal 24 10) = true
        /\ lt (Int 0) (decimal 24 10) = true
        /\ unload car (Int 1) = (Ok r1, s1)
        /\ lt (weight s1) (dry_mass s1) = true).
Proof.
  split.
  - eexists _, _, _, _, _, _.
    repeat (split; [vm_compute; reflexivity|]).
    vm_compute; reflexivity.
  - eexists _, _, _.
    repeat (split; [vm_compute; reflexivity|]).
    vm_compute; reflexivity.
Qed.

End PyInvariant.
